(** * Reactive state engine of react-meta-framework

    A shallow embedding of [src/state/reactive-state.ts]: the closures
    returned by [createReactiveState] and [createDerivedState] capture
    mutable variables ([currentValue], [isDirty], [subscribers],
    [derivedStates]); here every such closure environment is a record in
    a heap indexed by allocation order, and the two module-level
    variables ([currentComputation], [dependencyGraph]) are fields of the
    same explicit state.  User callbacks are trees of the operations a
    callback can perform on the engine; the engine's own functions are
    Rocq functions over the state, with a fuel argument because
    [value], [compute], [update] and [setValue] call each other through
    user callbacks.

    Limits of the model: stored values are integers, [null] and
    [undefined] (no [NaN], no objects), so [!==] is decidable equality;
    callback bodies read, write, push to a log and throw, but do not
    create states or subscribe; unbounded recursion shows as running out
    of every fuel, where the JavaScript runtime would exhaust its stack.
    The module [Bounded] has the same functions on a call stack of
    bounded depth, where a call too many throws [RangeError].

    The state machines of [src/state/state-machine.ts] are embedded in
    the module [StateMachine]; their properties are in
    [StateMachineFacts]. *)

From Stdlib Require Import ZArith.
From stdpp Require Import base list strings gmap.

Open Scope Z_scope.

(** ** Values and errors *)

(** The values stored in cells: numbers, [null] (the dummy cells of
    [createComputed] and [createReactiveEffect]) and [undefined] (the
    uninitialised [currentValue] of a derived state). *)
Inductive val : Type :=
  | VUndefined
  | VNull
  | VNum (z : Z).

#[global] Instance val_eq_dec : EqDecision val.
Proof. solve_decision. Defined.

(** [a !== b] on these values. *)
Definition strict_neq (a b : val) : bool := negb (bool_decide (a = b)).

Record error : Type := mkError { err_name : string; err_message : string }.

#[global] Instance error_eq_dec : EqDecision error.
Proof. solve_decision. Defined.

(** [throw new Error("Cannot set value on derived state")] *)
Definition derivedSetError : error :=
  mkError "Error"%string "Cannot set value on derived state"%string.

(** What the runtime raises when a callback uses a variable that holds no
    reactive state. *)
Definition typeError : error := mkError "TypeError"%string "not a reactive state"%string.

(** The two errors of the specification's taxonomy; the source never
    constructs either of them. *)
Definition cyclicDependencyError : error :=
  mkError "CyclicDependencyError"%string EmptyString.
Definition writeDuringComputeError : error :=
  mkError "WriteDuringComputeError"%string EmptyString.

(** ** Callbacks *)

(** A reactive state object is identified by the heap index of its
    closure environment. *)
Abbreviation ref := nat.

(** The body of a user callback, as the sequence of engine operations it
    performs; the continuation receives what the operation returns.
    Bodies cannot create states or subscribe, so the subscriber and
    derived-state sets are stable while [forEach] iterates over them. *)
Inductive body : Type :=
  | Return (v : val)
  | Value (r : ref) (k : val -> body)            (* r.value() *)
  | SetValue (r : ref) (v : val) (k : body)      (* r.setValue(v) *)
  | SetValueWith (r : ref) (f : val -> body) (k : body)
                                                 (* r.setValue(prev => ...) *)
  | Push (v : val) (k : body)                    (* log.push(v) *)
  | ThrowErr (e : error).                        (* throw e *)

(** The argument of [setValue]: [T | ((_prev: T) => T)]. *)
Inductive setArg : Type :=
  | Plain (v : val)
  | Updater (f : val -> body).

(** A function object: its identity (what [Set.add]/[Set.delete]
    compare) and its code. *)
Record callback : Type := mkCallback { cb_id : nat; cb_body : val -> body }.

(** ** The heap *)

(** Closure environment of [createReactiveState]. *)
Record cell : Type := mkCell {
  c_currentValue : val;
  c_subscribers : list callback;
  c_derivedStates : list ref
}.

(** Closure environment of [createDerivedState]. *)
Record derived : Type := mkDerived {
  d_currentValue : val;
  d_isDirty : bool;
  d_subscribers : list callback;
  d_fn : val -> body;
  d_dependency : ref
}.

Inductive node : Type :=
  | Cell (c : cell)
  | Derived (d : derived).

(** The object literal assigned to [currentComputation]: a fresh object
    on every [compute], wrapping the closures of one derived state. *)
Record computation : Type := mkComputation { comp_obj : nat; comp_node : ref }.

(** What a run leaves in the observation trace (instrumentation, not
    part of the source): an invocation of a derived state's [fn], and an
    invocation of a subscriber callback with its argument. *)
Inductive event : Type :=
  | Computed (r : ref)
  | Notified (cb : nat) (v : val).

Record state : Type := mkState {
  nodes : list node;
  currentComputation : option computation;
  dependencyGraph : gmap nat (list ref);
  next_obj : nat;
  log : list val;
  trace : list event
}.

Definition init : state := mkState [] None ∅ 0 [] [].

Definition set_nodes (f : list node -> list node) (s : state) : state :=
  mkState (f (nodes s)) (currentComputation s) (dependencyGraph s)
          (next_obj s) (log s) (trace s).

Definition set_currentComputation (c : option computation) (s : state) : state :=
  mkState (nodes s) c (dependencyGraph s) (next_obj s) (log s) (trace s).

Definition set_dependencyGraph (g : gmap nat (list ref)) (s : state) : state :=
  mkState (nodes s) (currentComputation s) g (next_obj s) (log s) (trace s).

Definition fresh_obj (s : state) : state :=
  mkState (nodes s) (currentComputation s) (dependencyGraph s)
          (S (next_obj s)) (log s) (trace s).

Definition push_log (v : val) (s : state) : state :=
  mkState (nodes s) (currentComputation s) (dependencyGraph s)
          (next_obj s) (log s ++ [v]) (trace s).

Definition emit (e : event) (s : state) : state :=
  mkState (nodes s) (currentComputation s) (dependencyGraph s)
          (next_obj s) (log s) (trace s ++ [e]).

(** ** Outcomes *)

Inductive result (A : Type) : Type :=
  | Ok (a : A) (s : state)
  | Throw (e : error) (s : state)
  | OutOfFuel.
Arguments Ok {A} a s.
Arguments Throw {A} e s.
Arguments OutOfFuel {A}.

Definition bind {A B} (m : result A) (k : A -> state -> result B) : result B :=
  match m with
  | Ok a s => k a s
  | Throw e s => Throw e s
  | OutOfFuel => OutOfFuel
  end.

(** [try { m } finally { h }] where [h] only assigns variables. *)
Definition finally {A} (m : result A) (h : state -> state) : result A :=
  match m with
  | Ok a s => Ok a (h s)
  | Throw e s => Throw e (h s)
  | OutOfFuel => OutOfFuel
  end.

(** [xs.forEach(f)] over a snapshot of the set's elements. *)
Definition forEach {A B} (f : A -> state -> result B)
  : list A -> state -> result unit :=
  fix go (xs : list A) (s : state) : result unit :=
    match xs with
    | [] => Ok tt s
    | x :: xs' => bind (f x s) (fun _ s' => go xs' s')
    end.

(** ** Field access *)

Definition set_cell_value (r : ref) (v : val) (s : state) : state :=
  set_nodes (fun ns =>
    match ns !! r with
    | Some (Cell c) =>
        <[r := Cell (mkCell v (c_subscribers c) (c_derivedStates c))]> ns
    | _ => ns
    end) s.

Definition set_isDirty (r : ref) (b : bool) (s : state) : state :=
  set_nodes (fun ns =>
    match ns !! r with
    | Some (Derived d) =>
        <[r := Derived (mkDerived (d_currentValue d) b (d_subscribers d)
                                  (d_fn d) (d_dependency d))]> ns
    | _ => ns
    end) s.

Definition set_derived_value (r : ref) (v : val) (s : state) : state :=
  set_nodes (fun ns =>
    match ns !! r with
    | Some (Derived d) =>
        <[r := Derived (mkDerived v (d_isDirty d) (d_subscribers d)
                                  (d_fn d) (d_dependency d))]> ns
    | _ => ns
    end) s.

(** Dependency tracking of a cell's [value]:
    [if (currentComputation) { if (!dependencyGraph.has(cc))
    dependencyGraph.set(cc, new Set()); dependencyGraph.get(cc).add({...}) }].
    The added wrapper is a fresh object literal, so [add] always adds. *)
Definition dg_add (c : computation) (r : ref) (g : gmap nat (list ref))
  : gmap nat (list ref) :=
  <[comp_obj c := default [] (g !! comp_obj c) ++ [r]]> g.

Definition track (r : ref) (s : state) : state :=
  set_dependencyGraph
    (match currentComputation s with
     | None => dependencyGraph s
     | Some c => dg_add c r (dependencyGraph s)
     end) s.

(** ** The engine *)

Fixpoint run (n : nat) (p : body) (s : state) {struct n} : result val :=
  match n with
  | O => OutOfFuel
  | S n =>
      match p with
      | Return v => Ok v s
      | Value r k => bind (value n r s) (fun v s1 => run n (k v) s1)
      | SetValue r v k => bind (setValue n r (Plain v) s) (fun _ s1 => run n k s1)
      | SetValueWith r f k =>
          bind (setValue n r (Updater f) s) (fun _ s1 => run n k s1)
      | Push v k => run n k (push_log v s)
      | ThrowErr e => Throw e s
      end
  end

with value (n : nat) (r : ref) (s : state) {struct n} : result val :=
  match n with
  | O => OutOfFuel
  | S n =>
      match nodes s !! r with
      | Some (Cell c) => Ok (c_currentValue c) (track r s)
      | Some (Derived _) => compute n r s
      | None => Throw typeError s
      end
  end

with compute (n : nat) (r : ref) (s : state) {struct n} : result val :=
  match n with
  | O => OutOfFuel
  | S n =>
      match nodes s !! r with
      | Some (Derived d) =>
          if d_isDirty d then
            let prevComputation := currentComputation s in
            let s1 := set_currentComputation
                        (Some (mkComputation (next_obj s) r)) (fresh_obj s) in
            bind
              (finally
                 (bind (value n (d_dependency d) s1) (fun v s2 =>
                  bind (run n (d_fn d v) (emit (Computed r) s2)) (fun u s3 =>
                  Ok u (set_isDirty r false (set_derived_value r u s3)))))
                 (set_currentComputation prevComputation))
              (fun _ s4 =>
                 match nodes s4 !! r with
                 | Some (Derived d4) => Ok (d_currentValue d4) s4
                 | _ => Throw typeError s4
                 end)
          else Ok (d_currentValue d) s
      | _ => Throw typeError s
      end
  end

with update (n : nat) (r : ref) (s : state) {struct n} : result unit :=
  match n with
  | O => OutOfFuel
  | S n =>
      match nodes s !! r with
      | Some (Derived d) =>
          let s1 := set_isDirty r true s in
          let oldValue := d_currentValue d in
          bind (compute n r s1) (fun newValue s2 =>
            if strict_neq newValue oldValue then
              match nodes s2 !! r with
              | Some (Derived d2) =>
                  forEach (fun cb s' =>
                             run n (cb_body cb newValue)
                                 (emit (Notified (cb_id cb) newValue) s'))
                          (d_subscribers d2) s2
              | _ => Throw typeError s2
              end
            else Ok tt s2)
      | _ => Ok tt s            (* if (derivedState.update) *)
      end
  end

with setValue (n : nat) (r : ref) (a : setArg) (s : state) {struct n}
  : result unit :=
  match n with
  | O => OutOfFuel
  | S n =>
      match nodes s !! r with
      | Some (Cell c) =>
          bind (match a with
                | Plain v => Ok v s
                | Updater f => run n (f (c_currentValue c)) s
                end) (fun nextValue s1 =>
          match nodes s1 !! r with
          | Some (Cell c1) =>
              if strict_neq nextValue (c_currentValue c1) then
                let s2 := set_cell_value r nextValue s1 in
                bind (forEach (fun cb s' =>
                         match nodes s' !! r with
                         | Some (Cell c') =>
                             run n (cb_body cb (c_currentValue c'))
                                 (emit (Notified (cb_id cb) (c_currentValue c')) s')
                         | _ => Throw typeError s'
                         end) (c_subscribers c1) s2) (fun _ s3 =>
                match nodes s3 !! r with
                | Some (Cell c3) =>
                    forEach (fun d s' => update n d s') (c_derivedStates c3) s3
                | _ => Throw typeError s3
                end)
              else Ok tt s1
          | _ => Throw typeError s1
          end)
      | Some (Derived _) => Throw derivedSetError s
      | None => Throw typeError s
      end
  end.

(** ** Public API *)

Definition alloc (nd : node) (s : state) : ref * state :=
  (length (nodes s), set_nodes (fun ns => ns ++ [nd]) s).

Definition createReactiveState (initialValue : val) (s : state) : ref * state :=
  alloc (Cell (mkCell initialValue [] [])) s.

(** [let currentValue; let isDirty = true; ... compute(); return {...}] *)
Definition createDerivedState (n : nat) (fn : val -> body) (dependency : ref)
    (s : state) : result ref :=
  let '(r, s1) := alloc (Derived (mkDerived VUndefined true [] fn dependency)) s in
  bind (compute n r s1) (fun _ s2 => Ok r s2).

(** [derivedStates.add(derivedState)]: the object is new, so it is added. *)
Definition add_derivedState (r d : ref) (s : state) : state :=
  set_nodes (fun ns =>
    match ns !! r with
    | Some (Cell c) =>
        <[r := Cell (mkCell (c_currentValue c) (c_subscribers c)
                            (c_derivedStates c ++ [d]))]> ns
    | _ => ns
    end) s.

(** [derive] of a cell registers the child in [derivedStates]; [derive] of
    a derived state only creates it. *)
Definition derive (n : nat) (r : ref) (fn : val -> body) (s : state)
  : result ref :=
  match nodes s !! r with
  | Some (Cell _) =>
      bind (createDerivedState n fn r s) (fun d s1 =>
        Ok d (add_derivedState r d s1))
  | Some (Derived _) => createDerivedState n fn r s
  | None => Throw typeError s
  end.

(** A new function object (an arrow function evaluated at run time). *)
Definition newCallback (f : val -> body) (s : state) : callback * state :=
  (mkCallback (next_obj s) f, fresh_obj s).

(** [Set.prototype.add] and [Set.prototype.delete] on function objects. *)
Definition set_add (cb : callback) (l : list callback) : list callback :=
  if existsb (fun cb' => Nat.eqb (cb_id cb') (cb_id cb)) l then l else l ++ [cb].

Definition set_delete (id : nat) (l : list callback) : list callback :=
  List.filter (fun cb' => negb (Nat.eqb (cb_id cb') id)) l.

(** The closure [() => subscribers.delete(_callback)]. *)
Record unsubscriber : Type := mkUnsubscriber { un_ref : ref; un_cb : nat }.

Definition subscribe (r : ref) (cb : callback) (s : state) : result unsubscriber :=
  match nodes s !! r with
  | Some (Cell c) =>
      Ok (mkUnsubscriber r (cb_id cb))
         (set_nodes <[r := Cell (mkCell (c_currentValue c)
                                        (set_add cb (c_subscribers c))
                                        (c_derivedStates c))]> s)
  | Some (Derived d) =>
      Ok (mkUnsubscriber r (cb_id cb))
         (set_nodes <[r := Derived (mkDerived (d_currentValue d) (d_isDirty d)
                                              (set_add cb (d_subscribers d))
                                              (d_fn d) (d_dependency d))]> s)
  | None => Throw typeError s
  end.

Definition unsubscribe (u : unsubscriber) (s : state) : state :=
  match nodes s !! un_ref u with
  | Some (Cell c) =>
      set_nodes <[un_ref u := Cell (mkCell (c_currentValue c)
                                           (set_delete (un_cb u) (c_subscribers c))
                                           (c_derivedStates c))]> s
  | Some (Derived d) =>
      set_nodes <[un_ref u := Derived (mkDerived (d_currentValue d) (d_isDirty d)
                                                 (set_delete (un_cb u) (d_subscribers d))
                                                 (d_fn d) (d_dependency d))]> s
  | None => s
  end.

(** [const dummy = createReactiveState(null); return dummy.derive(() => fn())] *)
Definition createComputed (n : nat) (fn : body) (s : state) : result ref :=
  let '(dummy, s1) := createReactiveState VNull s in
  derive n dummy (fun _ => fn) s1.

(** [const dummy = createReactiveState(null);
     const unsubscribe = dummy.subscribe(() => { fn(); });
     fn(); return unsubscribe] *)
Definition createReactiveEffect (n : nat) (fn : body) (s : state)
  : result unsubscriber :=
  let '(dummy, s1) := createReactiveState VNull s in
  let '(cb, s2) := newCallback (fun _ => fn) s1 in
  bind (subscribe dummy cb s2) (fun unsub s3 =>
  bind (run n fn s3) (fun _ s4 => Ok unsub s4)).

(** [updates.forEach((update) => update())] *)
Definition batch (n : nat) (updates : list body) (s : state) : result unit :=
  forEach (fun u s' => run n u s') updates s.

Definition createSelector (n : nat) (st : ref) (selector : val -> body)
    (s : state) : result ref :=
  derive n st selector s.

(** ** Callbacks and observations used in the scenarios *)

(** [x => g(x)] for a function that performs no engine operation. *)
Definition pure (g : val -> val) (x : val) : body := Return (g x).

(** Arithmetic on a value; the scenarios only pass numbers. *)
Definition lift (f : Z -> Z) (x : val) : val :=
  match x with
  | VNum z => VNum (f z)
  | _ => VUndefined
  end.

(** [x => f(x)] for an arithmetic [f]. *)
Definition arith (f : Z -> Z) : val -> body := pure (lift f).

(** [() => b.value() + c.value()] *)
Definition sumOf (b c : ref) : body :=
  Value b (fun bv => Value c (fun cv =>
    match bv, cv with
    | VNum x, VNum y => Return (VNum (x + y))
    | _, _ => Return VUndefined
    end)).

(** [() => log.push(a.value())] *)
Definition logValue (a : ref) : body :=
  Value a (fun v => Push v (Return VUndefined)).

(** Number of invocations of [r]'s compute function in a trace. *)
Definition runs_of (r : ref) (t : list event) : nat :=
  length (List.filter (fun e => match e with
                                | Computed r' => Nat.eqb r' r
                                | _ => false
                                end) t).

Definition notifications (t : list event) : list event :=
  List.filter (fun e => match e with Notified _ _ => true | _ => false end) t.

(** What a run returned, if it returned. *)
Definition returned {A} (m : result A) : option A :=
  match m with
  | Ok a _ => Some a
  | _ => None
  end.

Definition cell_value (r : ref) (s : state) : option val :=
  match nodes s !! r with
  | Some (Cell c) => Some (c_currentValue c)
  | _ => None
  end.

Definition derived_cache (r : ref) (s : state) : option (val * bool) :=
  match nodes s !! r with
  | Some (Derived d) => Some (d_currentValue d, d_isDirty d)
  | _ => None
  end.

(** ** Relating two outcomes *)

(** Two outcomes agree up to a relation on their final states. *)
Definition rsim {A} (R : state -> state -> Prop) (m m' : result A) : Prop :=
  match m, m' with
  | Ok a s, Ok a' s' => a = a' /\ R s s'
  | Throw e s, Throw e' s' => e = e' /\ R s s'
  | OutOfFuel, OutOfFuel => True
  | _, _ => False
  end.

(** What a caller can observe of the engine: the heap of closure
    environments, the log the callbacks push to, and the trace. *)
Definition observable (s s' : state) : Prop :=
  nodes s = nodes s' /\ log s = log s' /\ trace s = trace s'.

Definition same_nodes (s s' : state) : Prop := nodes s = nodes s'.

(** ** Predicates and scenarios *)

(** The state in which [fn(dependency.value())] is evaluated. *)
Definition enter (r : ref) (s : state) : state :=
  set_currentComputation (Some (mkComputation (next_obj s) r)) (fresh_obj s).

(** A state is settled with value [v] when reading it returns [v]
    without running any compute function: a cell, or a derived state that
    is not dirty. *)
Definition settled (ns : list node) (r : ref) (v : val) : Prop :=
  match ns !! r with
  | Some (Cell c) => c_currentValue c = v
  | Some (Derived d) => d_isDirty d = false /\ d_currentValue d = v
  | None => False
  end.

(** The second state differs from the first only in the dependency
    bookkeeping. *)
Definition bookkeeping (s s' : state) : Prop :=
  nodes s' = nodes s /\ log s' = log s /\ trace s' = trace s /\
  currentComputation s' = currentComputation s.

(** [vs.forEach(v => a.setValue(v))] *)
Definition writes (n : nat) (a : ref) (vs : list val) (s : state) : result unit :=
  forEach (fun v s' => setValue n a (Plain v) s') vs s.


(** The same pair without any read: how often [b]'s function has run
    after creation, and after a write. *)
Definition eager_probe (n : nat) : result (nat * nat) :=
  let '(a, s1) := createReactiveState (VNum 2) init in
  bind (derive n a (arith (fun x => x * 2)) s1) (fun b s2 =>
  bind (setValue n a (Plain (VNum 3)) s2) (fun _ s3 =>
  Ok (runs_of b (trace s2), runs_of b (trace s3)) s3)).

(** [a = createReactiveState(1); b = a.derive(x => x+1);
     c = a.derive(x => x*10); d = createComputed(() => b.value() + c.value());
     a.setValue(2)]: the values read from [b], [c] and [d] afterwards, and
    how often [d]'s function had run before the write and at the end. *)
Definition diamond (n : nat) : result (val * val * val * nat * nat) :=
  let '(a, s1) := createReactiveState (VNum 1) init in
  bind (derive n a (arith (fun x => x + 1)) s1) (fun b s2 =>
  bind (derive n a (arith (fun x => x * 10)) s2) (fun c s3 =>
  bind (createComputed n (sumOf b c) s3) (fun d s4 =>
  bind (setValue n a (Plain (VNum 2)) s4) (fun _ s5 =>
  bind (value n b s5) (fun vb s6 =>
  bind (value n c s6) (fun vc s7 =>
  bind (value n d s7) (fun vd s8 =>
  Ok (vb, vc, vd, runs_of d (trace s4), runs_of d (trace s8)) s8))))))).

(** The same diamond with [d = b.derive(bv => bv + c.value())]. *)
Definition diamond_chained (n : nat) : result (val * val * val * nat * nat) :=
  let '(a, s1) := createReactiveState (VNum 1) init in
  bind (derive n a (arith (fun x => x + 1)) s1) (fun b s2 =>
  bind (derive n a (arith (fun x => x * 10)) s2) (fun c s3 =>
  bind (derive n b (fun bv => Value c (fun cv =>
          match bv, cv with
          | VNum x, VNum y => Return (VNum (x + y))
          | _, _ => Return VUndefined
          end)) s3) (fun d s4 =>
  bind (setValue n a (Plain (VNum 2)) s4) (fun _ s5 =>
  bind (value n b s5) (fun vb s6 =>
  bind (value n c s6) (fun vc s7 =>
  bind (value n d s7) (fun vd s8 =>
  Ok (vb, vc, vd, runs_of d (trace s4), runs_of d (trace s8)) s8))))))).

(** [() => a.setValue(v)] *)
Definition write_thunk (a : ref) (v : val) : body :=
  SetValue a v (Return VUndefined).

(** [a = createReactiveState(0); createReactiveEffect(() => log.push(a.value()));
     batch([() => a.setValue(1), () => a.setValue(2)])]: the log after
    the effect's creation, the log after the batch, and the cell. *)
Definition batch_effect (n : nat) : result (list val * list val * option val) :=
  let '(a, s1) := createReactiveState (VNum 0) init in
  bind (createReactiveEffect n (logValue a) s1) (fun _ s2 =>
  bind (batch n [write_thunk a (VNum 1); write_thunk a (VNum 2)] s2) (fun _ s3 =>
  Ok (log s2, log s3, cell_value a s3) s3)).

(** The same batch with the logger subscribed to the cell itself:
    [a.subscribe(v => log.push(v))]. *)
Definition batch_subscriber (n : nat) : result (list val * list event) :=
  let '(a, s1) := createReactiveState (VNum 0) init in
  let '(cb, s2) := newCallback (fun v => Push v (Return VUndefined)) s1 in
  bind (subscribe a cb s2) (fun _ s3 =>
  bind (batch n [write_thunk a (VNum 1); write_thunk a (VNum 2)] s3) (fun _ s4 =>
  Ok (log s4, notifications (trace s4)) s4)).

(** Subscribers of a cell, by identity. *)
Definition subscriber_ids (r : ref) (s : state) : list nat :=
  match nodes s !! r with
  | Some (Cell c) => map cb_id (c_subscribers c)
  | Some (Derived d) => map cb_id (d_subscribers d)
  | None => []
  end.

(** [a = createReactiveState(0); dispose = createReactiveEffect(() =>
     log.push(a.value())); a.setValue(1); a.setValue(2); dispose()]: the
    log after creation, the log after the writes, the cell after the
    writes, and the subscribers of the effect's dummy cell before and
    after [dispose()]. *)
Definition effect_scenario (n : nat)
  : result (list val * list val * option val * list nat * list nat) :=
  let '(a, s1) := createReactiveState (VNum 0) init in
  bind (createReactiveEffect n (logValue a) s1) (fun dispose s2 =>
  bind (setValue n a (Plain (VNum 1)) s2) (fun _ s3 =>
  bind (setValue n a (Plain (VNum 2)) s3) (fun _ s4 =>
  Ok (log s2, log s4, cell_value a s4,
      subscriber_ids (un_ref dispose) s4,
      subscriber_ids (un_ref dispose) (unsubscribe dispose s4)) s4))).

(** [c = createReactiveState(0); a = createReactiveState(5);
     b = a.derive(x => { c.setValue(x); return x; })]: the cell [c] and
    the cache of [b] once [derive] has returned. *)
Definition write_in_compute (n : nat)
  : result (option val * option (val * bool)) :=
  let '(c, s0) := createReactiveState (VNum 0) init in
  let '(a, s1) := createReactiveState (VNum 5) s0 in
  bind (derive n a (fun x => SetValue c x (Return x)) s1) (fun b s2 =>
  Ok (cell_value c s2, derived_cache b s2) s2).

(** [x => x === 0 ? 0 : d.value()], the function of the derived state
    [d] itself (the variable [d] is assigned after [derive] returns). *)
Definition selfRead (d : ref) (x : val) : body :=
  match x with
  | VNum 0 => Return (VNum 0)
  | _ => Value d Return
  end.

(** The state after [a = createReactiveState(0); d = a.derive(x => x === 0
    ? 0 : d.value())]: [a] is object 0 and [d] is object 1. *)
Definition cyclic_state : state :=
  let '(a, s1) := createReactiveState (VNum 0) init in
  match derive 3 a (selfRead 1) s1 with
  | Ok _ s2 => s2
  | _ => s1
  end.

(** A callback body that writes nothing and reads only settled states. *)
Inductive calm (ns : list node) : body -> Prop :=
  | calm_Return v : calm ns (Return v)
  | calm_ThrowErr e : calm ns (ThrowErr e)
  | calm_Push v k : calm ns k -> calm ns (Push v k)
  | calm_Value r v k : settled ns r v -> calm ns (k v) -> calm ns (Value r k).

(** A calm body that ends in [throw e]. *)
Inductive throws (ns : list node) (e : error) : body -> Prop :=
  | throws_ThrowErr : throws ns e (ThrowErr e)
  | throws_Push v k : throws ns e k -> throws ns e (Push v k)
  | throws_Value r v k :
      settled ns r v -> throws ns e (k v) -> throws ns e (Value r k).

Definition boom : error := mkError "Error"%string "boom"%string.

(** [x => { const m = c.value(); if (m === 0) return x;
            if (m === 1) throw boom;
            c.setValue(0); a.setValue(7); throw boom; }] *)
Definition reentrant (a c : ref) (x : val) : body :=
  Value c (fun m =>
    match m with
    | VNum 0 => Return x
    | VNum 1 => ThrowErr boom
    | _ => SetValue c (VNum 0) (SetValue a (VNum 7) (ThrowErr boom))
    end).

(** The state after [c = createReactiveState(0); a = createReactiveState(5);
    b = a.derive(reentrant); c.setValue(1); a.setValue(6) (which throws
    and leaves b dirty); c.setValue(2)]: [c], [a], [b] are objects 0, 1, 2. *)
Definition reentrant_state : state :=
  let '(c, s0) := createReactiveState (VNum 0) init in
  let '(a, s1) := createReactiveState (VNum 5) s0 in
  match derive 10 a (reentrant a c) s1 with
  | Ok _ s2 =>
      match setValue 10 c (Plain (VNum 1)) s2 with
      | Ok _ s3 =>
          match setValue 10 a (Plain (VNum 6)) s3 with
          | Throw _ s4 =>
              match setValue 10 c (Plain (VNum 2)) s4 with
              | Ok _ s5 => s5
              | _ => init
              end
          | _ => init
          end
      | _ => init
      end
  | _ => init
  end.

(** [x => { if (x === 2) { log.push(x); throw boom; } return x; }] *)
Definition failing (x : val) : body :=
  match x with
  | VNum 2 => Push x (ThrowErr boom)
  | _ => Return x
  end.

(** The state after [a = createReactiveState(1); b1 = a.derive(failing);
    b2 = a.derive(x => x*10); a.setValue(2)], where the write throws out
    of [b1]'s update: [a], [b1], [b2] are objects 0, 1, 2; [b1] is dirty
    with cache 1. *)
Definition failing_state : state :=
  let '(a, s1) := createReactiveState (VNum 1) init in
  match derive 5 a failing s1 with
  | Ok _ s2 =>
      match derive 5 a (arith (fun x => x * 10)) s2 with
      | Ok _ s3 =>
          match setValue 10 a (Plain (VNum 2)) s3 with
          | Throw _ s4 => s4
          | _ => init
          end
      | _ => init
      end
  | _ => init
  end.

(** The state in the middle of [a.setValue(1)] on [cyclic_state], when
    [update] has marked [d] dirty and is about to recompute it. *)
Definition dirty_cycle : state :=
  set_isDirty 1 true (set_cell_value 0 (VNum 1) cyclic_state).

(** The state after [a = createReactiveState(7); a.subscribe(v =>
    log.push(v)); a.derive(x => x*2)]. *)
Definition subscribed_state : state :=
  let '(a, s1) := createReactiveState (VNum 7) init in
  let '(cb, s2) := newCallback (fun v => Push v (Return VUndefined)) s1 in
  match subscribe a cb s2 with
  | Ok _ s3 =>
      match derive 5 a (arith (fun x => x * 2)) s3 with
      | Ok _ s4 => s4
      | _ => s3
      end
  | _ => s2
  end.







(** ** The structure of the heap *)

(** Two closure environments of the same kind that agree on everything
    but [currentValue] and [isDirty]. *)
Definition node_shape (nd nd' : node) : Prop :=
  match nd, nd' with
  | Cell c, Cell c' =>
      c_subscribers c = c_subscribers c' /\
      c_derivedStates c = c_derivedStates c'
  | Derived d, Derived d' =>
      d_subscribers d = d_subscribers d' /\
      d_fn d = d_fn d' /\
      d_dependency d = d_dependency d'
  | _, _ => False
  end.

(** The second heap holds the same objects as the first, with the same
    subscribers, derived states, functions and dependencies. *)
Definition shape (ns ns' : list node) : Prop :=
  length ns = length ns' /\
  forall r nd, ns !! r = Some nd ->
    exists nd', ns' !! r = Some nd' /\ node_shape nd nd'.

(** [cb] is in the subscriber set of object [r]. *)
Definition subscribed (r : ref) (cb : callback) (ns : list node) : Prop :=
  match ns !! r with
  | Some (Cell c) => cb ∈ c_subscribers c
  | Some (Derived d) => cb ∈ d_subscribers d
  | None => False
  end.

(** The outcome of a run from [s] kept the structure of the heap and
    stands in relation [Q] to [s]. *)
Definition kept {A} (Q : state -> state -> Prop) (s : state) (m : result A)
  : Prop :=
  match m with
  | Ok _ s' | Throw _ s' => shape (nodes s) (nodes s') /\ Q s s'
  | OutOfFuel => True
  end.

(** A property of the state a run ends in, whether it returned or threw. *)
Definition after {A} (P : state -> Prop) (m : result A) : Prop :=
  match m with
  | Ok _ s' | Throw _ s' => P s'
  | OutOfFuel => True
  end.

(** The invocations of the function object [i] as a subscriber. *)
Definition notified_by (i : nat) (t : list event) : list event :=
  List.filter (fun e => match e with
                        | Notified j _ => Nat.eqb j i
                        | _ => false
                        end) t.

(** The function object [i] is in no subscriber set of the heap. *)
Definition unsubscribed (i : nat) (ns : list node) : Prop :=
  forall r cb, subscribed r cb ns -> cb_id cb <> i.

(** Every entry of the first dependency graph is in the second, with a
    set that has only grown. *)
Definition graph_grows (g g' : gmap nat (list ref)) : Prop :=
  forall k l, g !! k = Some l -> exists l', g' !! k = Some (l ++ l').

(** The relations between the state a run starts in and the state it
    ends in that are shown to hold of every run: nothing beyond the
    structure of the heap; the same [currentComputation]; a dependency
    graph that has only grown; no call of a function object that was in
    no subscriber set. *)
Definition Qtrue (s s' : state) : Prop := True.
Definition Qcc (s s' : state) : Prop := currentComputation s' = currentComputation s.
Definition Qdg (s s' : state) : Prop :=
  graph_grows (dependencyGraph s) (dependencyGraph s').
Definition Qsub (i : nat) (s s' : state) : Prop :=
  unsubscribed i (nodes s) -> notified_by i (trace s') = notified_by i (trace s).

(** The identities of the subscribers of an object. *)
Definition subscribers_of (nd : node) : list callback :=
  match nd with
  | Cell c => c_subscribers c
  | Derived d => d_subscribers d
  end.

(** Every state registered in a cell's [derivedStates] is a derived
    state whose dependency is that cell. *)
Definition registered_consistent (ns : list node) : Prop :=
  forall r c d,
    ns !! r = Some (Cell c) -> d ∈ c_derivedStates c ->
    exists dd, ns !! d = Some (Derived dd) /\ d_dependency dd = r.

(** ** Subscribers that only log *)

(** What a callback body pushes to the log before its first engine
    operation. *)
Fixpoint pushes (p : body) : list val :=
  match p with
  | Push w k => w :: pushes k
  | _ => []
  end.

(** A body that only pushes to the log and returns, in at most [n]
    pushes. *)
Fixpoint inert_within (n : nat) (p : body) : Prop :=
  match p with
  | Return _ => True
  | Push _ k =>
      match n with
      | O => False
      | S n' => inert_within n' k
      end
  | _ => False
  end.

(** A subscriber that, called with [v], only pushes to the log. *)
Definition silent (n : nat) (v : val) (cb : callback) : Prop :=
  inert_within n (cb_body cb v).

(** The state after the pushes [ws]. *)
Definition pushed (ws : list val) (s : state) : state :=
  fold_left (fun s' w => push_log w s') ws s.

(** The trace of calling each of [cbs] once, in order, with [v]. *)
Definition notifications_of (v : val) (cbs : list callback) : list event :=
  map (fun cb => Notified (cb_id cb) v) cbs.

(** What the subscribers [cbs], called in order with [v], push. *)
Definition pushes_of (v : val) (cbs : list callback) : list val :=
  concat (map (fun cb => pushes (cb_body cb v)) cbs).

(** The state after calling each silent subscriber once, in order. *)
Definition notify_all (v : val) (cbs : list callback) (s : state) : state :=
  fold_left (fun s' cb => pushed (pushes (cb_body cb v))
                                 (emit (Notified (cb_id cb) v) s')) cbs s.

(** ** More scenarios *)

(** [v => log.push(v)] *)
Definition logger (v : val) : body := Push v (Return VUndefined).

(** [x => { if (x === 2) throw boom; return x; }] *)
Definition rejecting (x : val) : body :=
  match x with
  | VNum 2 => ThrowErr boom
  | _ => Return x
  end.

(** [reentrant_state] after [c.setValue(0)]: [b] is still dirty with
    cache 5, and its function now returns the value of [a], which is 6. *)
Definition recovering_state : state :=
  match setValue 10 0 (Plain (VNum 0)) reentrant_state with
  | Ok _ s => s
  | _ => init
  end.

(** The state after [a = createReactiveState(0); a.subscribe(v =>
    log.push(v)); a.subscribe(v => { throw boom }); a.subscribe(v =>
    log.push(v)); a.derive(x => x+1)], with three function objects
    0, 1 and 2. *)
Definition guarded_state : state :=
  let '(a, s1) := createReactiveState (VNum 0) init in
  let '(cb1, s2) := newCallback logger s1 in
  let '(cb2, s3) := newCallback (fun _ => ThrowErr boom) s2 in
  let '(cb3, s4) := newCallback logger s3 in
  match subscribe a cb1 s4 with
  | Ok _ s5 =>
      match subscribe a cb2 s5 with
      | Ok _ s6 =>
          match subscribe a cb3 s6 with
          | Ok _ s7 =>
              match derive 5 a (arith (fun x => x + 1)) s7 with
              | Ok _ s8 => s8
              | _ => init
              end
          | _ => init
          end
      | _ => init
      end
  | _ => init
  end.

(** The state after [a = createReactiveState(1); b = a.derive(x => x*0);
    b.subscribe(v => log.push(v))]. *)
Definition observed_state : state :=
  let '(a, s1) := createReactiveState (VNum 1) init in
  match derive 5 a (arith (fun x => x * 0)) s1 with
  | Ok b s2 =>
      let '(cb, s3) := newCallback logger s2 in
      match subscribe b cb s3 with
      | Ok _ s4 => s4
      | _ => init
      end
  | _ => init
  end.

(** The state after [a = createReactiveState(1); a.subscribe(v =>
    log.push(v)); b1 = a.derive(rejecting); b2 = a.derive(x => x*10)]. *)
Definition siblings_state : state :=
  let '(a, s1) := createReactiveState (VNum 1) init in
  let '(cb, s2) := newCallback logger s1 in
  match subscribe a cb s2 with
  | Ok _ s3 =>
      match derive 5 a rejecting s3 with
      | Ok _ s4 =>
          match derive 5 a (arith (fun x => x * 10)) s4 with
          | Ok _ s5 => s5
          | _ => init
          end
      | _ => init
      end
  | _ => init
  end.

(** ** The memoized selector *)

(** The default [equalityFn]: [(_a, _b) => _a === _b]. *)
Definition strict_eq (a b : val) : bool := bool_decide (a = b).

(** The function [createMemoizedSelector] passes to [derive], for a
    selector and an equality that perform no engine operation.  The
    variable [lastValue] of its closure is passed in and out:
    [(_value) => { const newValue = selector(_value);
       if (lastValue === undefined || !equalityFn(lastValue, newValue))
         lastValue = newValue;
       return lastValue; }].  The result is the value returned and the
    new [lastValue]. *)
Definition memoized (selector : val -> val) (equalityFn : val -> val -> bool)
    (lastValue : val) (x : val) : val * val :=
  let newValue := selector x in
  let lastValue' :=
    if bool_decide (lastValue = VUndefined) || negb (equalityFn lastValue newValue)
    then newValue else lastValue in
  (lastValue', lastValue').

(** The values the function returns over successive calls. *)
Fixpoint memoized_calls (selector : val -> val) (equalityFn : val -> val -> bool)
    (lastValue : val) (xs : list val) : list val :=
  match xs with
  | [] => []
  | x :: xs' =>
      let '(v, lastValue') := memoized selector equalityFn lastValue x in
      v :: memoized_calls selector equalityFn lastValue' xs'
  end.

(** ** The engine on a bounded call stack *)

(** What the runtime throws when the call stack is exhausted. *)
Definition rangeError : error :=
  mkError "RangeError"%string "Maximum call stack size exceeded"%string.

(** The same five functions when the call stack has room for [n] nested
    calls of them: a call made where no room is left throws
    [RangeError], which propagates like any other exception, through the
    [finally] of [compute].  The frame of a user callback is counted
    with that of the function that calls it, and the calls the callback
    makes have the room that is left. *)
Module Bounded.

Section Callback.
Variable value : ref -> state -> result val.
Variable setValue : ref -> setArg -> state -> result unit.

Fixpoint run (p : body) (s : state) : result val :=
  match p with
  | Return v => Ok v s
  | Value r k => bind (value r s) (fun v s1 => run (k v) s1)
  | SetValue r v k => bind (setValue r (Plain v) s) (fun _ s1 => run k s1)
  | SetValueWith r f k => bind (setValue r (Updater f) s) (fun _ s1 => run k s1)
  | Push v k => run k (push_log v s)
  | ThrowErr e => Throw e s
  end.
End Callback.

Fixpoint value (n : nat) (r : ref) (s : state) {struct n} : result val :=
  match n with
  | O => Throw rangeError s
  | S n =>
      match nodes s !! r with
      | Some (Cell c) => Ok (c_currentValue c) (track r s)
      | Some (Derived _) => compute n r s
      | None => Throw typeError s
      end
  end

with compute (n : nat) (r : ref) (s : state) {struct n} : result val :=
  match n with
  | O => Throw rangeError s
  | S n =>
      match nodes s !! r with
      | Some (Derived d) =>
          if d_isDirty d then
            let prevComputation := currentComputation s in
            let s1 := set_currentComputation
                        (Some (mkComputation (next_obj s) r)) (fresh_obj s) in
            bind
              (finally
                 (bind (value n (d_dependency d) s1) (fun v s2 =>
                  bind (run (value n) (setValue n) (d_fn d v)
                            (emit (Computed r) s2)) (fun u s3 =>
                  Ok u (set_isDirty r false (set_derived_value r u s3)))))
                 (set_currentComputation prevComputation))
              (fun _ s4 =>
                 match nodes s4 !! r with
                 | Some (Derived d4) => Ok (d_currentValue d4) s4
                 | _ => Throw typeError s4
                 end)
          else Ok (d_currentValue d) s
      | _ => Throw typeError s
      end
  end

with update (n : nat) (r : ref) (s : state) {struct n} : result unit :=
  match n with
  | O => Throw rangeError s
  | S n =>
      match nodes s !! r with
      | Some (Derived d) =>
          let s1 := set_isDirty r true s in
          let oldValue := d_currentValue d in
          bind (compute n r s1) (fun newValue s2 =>
            if strict_neq newValue oldValue then
              match nodes s2 !! r with
              | Some (Derived d2) =>
                  forEach (fun cb s' =>
                             run (value n) (setValue n) (cb_body cb newValue)
                                 (emit (Notified (cb_id cb) newValue) s'))
                          (d_subscribers d2) s2
              | _ => Throw typeError s2
              end
            else Ok tt s2)
      | _ => Ok tt s
      end
  end

with setValue (n : nat) (r : ref) (a : setArg) (s : state) {struct n}
  : result unit :=
  match n with
  | O => Throw rangeError s
  | S n =>
      match nodes s !! r with
      | Some (Cell c) =>
          bind (match a with
                | Plain v => Ok v s
                | Updater f => run (value n) (setValue n) (f (c_currentValue c)) s
                end) (fun nextValue s1 =>
          match nodes s1 !! r with
          | Some (Cell c1) =>
              if strict_neq nextValue (c_currentValue c1) then
                let s2 := set_cell_value r nextValue s1 in
                bind (forEach (fun cb s' =>
                         match nodes s' !! r with
                         | Some (Cell c') =>
                             run (value n) (setValue n)
                                 (cb_body cb (c_currentValue c'))
                                 (emit (Notified (cb_id cb) (c_currentValue c')) s')
                         | _ => Throw typeError s'
                         end) (c_subscribers c1) s2) (fun _ s3 =>
                match nodes s3 !! r with
                | Some (Cell c3) =>
                    forEach (fun d s' => update n d s') (c_derivedStates c3) s3
                | _ => Throw typeError s3
                end)
              else Ok tt s1
          | _ => Throw typeError s1
          end)
      | Some (Derived _) => Throw derivedSetError s
      | None => Throw typeError s
      end
  end.

End Bounded.

(** A callback body that reaches a read of [r] through pushes and reads
    of settled states only. *)
Inductive reads_itself (ns : list node) (r : ref) : body -> Prop :=
  | reads_here k : reads_itself ns r (Value r k)
  | reads_after_push v k : reads_itself ns r k -> reads_itself ns r (Push v k)
  | reads_after_value r' v k :
      settled ns r' v -> reads_itself ns r (k v) -> reads_itself ns r (Value r' k).

(** The outcome is [RangeError], thrown from a state with heap [ns] and
    computation context [cc]. *)
Definition overflows {A} (ns : list node) (cc : option computation)
    (m : result A) : Prop :=
  exists s', m = Throw rangeError s' /\ nodes s' = ns /\ currentComputation s' = cc.

(** The second outcome is the first one, if the first is an outcome. *)
Definition agrees {A} (m m' : result A) : Prop :=
  match m with
  | Ok a s => m' = Ok a s
  | Throw e s => m' = Throw e s
  | OutOfFuel => True
  end.

(** ** Eager recomputation *)

(** A derived state of the cell [a] whose function performs no engine
    operation and whose subscribers, called with its result for [v],
    only log. *)
Definition eager_child (k : nat) (a : ref) (v : val) (ns : list node) (d : ref)
  : Prop :=
  exists dd g,
    ns !! d = Some (Derived dd) /\ d_fn dd = pure g /\ d_dependency dd = a /\
    Forall (silent k (g v)) (d_subscribers dd).

(** The state after [a = createReactiveState(1); a.subscribe(v =>
    log.push(v)); b = a.derive(x => x*2);
    u = createDerivedState(x => x+100, a); w = b.derive(x => x+1)]:
    [a], [b], [u], [w] are objects 0, 1, 2, 3; only [b] is in the
    [derivedStates] of [a]. *)
Definition eager_state : state :=
  let '(a, s1) := createReactiveState (VNum 1) init in
  let '(cb, s2) := newCallback logger s1 in
  match subscribe a cb s2 with
  | Ok _ s3 =>
      match derive 5 a (arith (fun x => x * 2)) s3 with
      | Ok b s4 =>
          match createDerivedState 5 (arith (fun x => x + 100)) a s4 with
          | Ok _ s5 =>
              match derive 5 b (arith (fun x => x + 1)) s5 with
              | Ok _ s6 => s6
              | _ => init
              end
          | _ => init
          end
      | _ => init
      end
  | _ => init
  end.

(** ** State machines ([src/state/state-machine.ts])

    States and events are strings.  The context is one object for the
    whole life of the machine: [context] is only ever assigned
    [initialContext], which it already is, so the model keeps the content
    of that object.  A guard is a predicate on that content.  An action
    is given by the content it leaves and the error it throws, if it
    throws (for a context that is a primitive value, no action changes
    it).  [onStateChange] and the subscribers are observers: they are
    taken not to change the context, each call is recorded, in order, in
    [notices], and each is given by the error it throws, if it throws.
    Whatever a callback throws propagates out of [send] or [reset], which
    catch nothing; the machine is then left as the assignments made so
    far have it. *)
Module StateMachine.

Record transition (C : Type) : Type := mkTransition {
  t_from : string;
  t_to : string;
  t_event : string;
  t_guard : option (C -> bool);
  t_action : option (C -> C * option error)
}.
Arguments mkTransition {C}.
Arguments t_from {C}.
Arguments t_to {C}.
Arguments t_event {C}.
Arguments t_guard {C}.
Arguments t_action {C}.

(** A subscriber: the identity of the function object, and what
    [callback(state, context)] throws. *)
Record subscriber (C : Type) : Type := mkSubscriber {
  sub_id : nat;
  sub_call : string -> C -> option error
}.
Arguments mkSubscriber {C}.
Arguments sub_id {C}.
Arguments sub_call {C}.

Inductive notice (C : Type) : Type :=
  | Changed (from to : string) (ctx : C)      (* onStateChange(from, to, context) *)
  | Told (cb : nat) (st : string) (ctx : C).  (* callback(currentState, context) *)
Arguments Changed {C}.
Arguments Told {C}.

Record machine (C : Type) : Type := mkMachine {
  initialState : string;
  transitions : list (transition C);
  onStateChange : option (string -> string -> C -> option error);
  currentState : string;
  context : C;
  subscribers : list (subscriber C);
  notices : list (notice C)
}.
Arguments mkMachine {C}.
Arguments initialState {C}.
Arguments transitions {C}.
Arguments onStateChange {C}.
Arguments currentState {C}.
Arguments context {C}.
Arguments subscribers {C}.
Arguments notices {C}.

(** What a call of [send] or [reset] ends in: the error thrown, with the
    machine as it was left, or the machine after a normal return. *)
Abbreviation outcome C := ((error * machine C) + machine C)%type.

Definition createStateMachine {C} (initial : string) (initialContext : C)
    (ts : list (transition C))
    (onChange : option (string -> string -> C -> option error)) : machine C :=
  mkMachine initial ts onChange initial initialContext [] [].

Definition set_currentState {C} (st : string) (m : machine C) : machine C :=
  mkMachine (initialState m) (transitions m) (onStateChange m)
            st (context m) (subscribers m) (notices m).

Definition set_context {C} (ctx : C) (m : machine C) : machine C :=
  mkMachine (initialState m) (transitions m) (onStateChange m)
            (currentState m) ctx (subscribers m) (notices m).

Definition record {C} (n : notice C) (m : machine C) : machine C :=
  mkMachine (initialState m) (transitions m) (onStateChange m)
            (currentState m) (context m) (subscribers m) (notices m ++ [n]).

(** [t.from === currentState && t.event === event] *)
Definition matches {C} (m : machine C) (event : string) (t : transition C) : bool :=
  String.eqb (t_from t) (currentState m) && String.eqb (t_event t) event.

(** [!t.guard || t.guard(context)] *)
Definition guard_passes {C} (m : machine C) (t : transition C) : bool :=
  match t_guard t with
  | None => true
  | Some g => g (context m)
  end.

(** [transitions.some(t => ... && (!t.guard || t.guard(context)))] *)
Definition can {C} (m : machine C) (event : string) : bool :=
  existsb (fun t => matches m event t && guard_passes m t) (transitions m).

Definition cannotSend (event st : string) : error :=
  mkError "Error" ("Cannot send event '" +:+ event +:+ "' from state '" +:+ st +:+ "'").

Definition guardFailed (event st : string) : error :=
  mkError "Error" ("Guard failed for event '" +:+ event +:+ "' from state '" +:+ st +:+ "'").

(** [subscribers.forEach(callback => callback(currentState, context))]
    over the subscribers [sbs] still to be called. *)
Fixpoint tell {C} (sbs : list (subscriber C)) (m : machine C) : outcome C :=
  match sbs with
  | [] => inr m
  | sb :: sbs' =>
      let m1 := record (Told (sub_id sb) (currentState m) (context m)) m in
      match sub_call sb (currentState m) (context m) with
      | Some e => inl (e, m1)
      | None => tell sbs' m1
      end
  end.

Definition send {C} (m : machine C) (event : string) : outcome C :=
  match List.find (matches m event) (transitions m) with
  | None => inl (cannotSend event (currentState m), m)
  | Some t =>
      if negb (guard_passes m t) then inl (guardFailed event (currentState m), m)
      else
        let fromState := currentState m in
        let m1 := set_currentState (t_to t) m in
        let '(m2, thrown) :=
          match t_action t with
          | None => (m1, None)
          | Some act =>
              let '(ctx, e) := act (context m1) in (set_context ctx m1, e)
          end in
        match thrown with
        | Some e => inl (e, m2)
        | None =>
            match onStateChange m2 with
            | None => tell (subscribers m2) m2
            | Some f =>
                let m3 := record (Changed fromState (currentState m2) (context m2)) m2 in
                match f fromState (currentState m2) (context m2) with
                | Some e => inl (e, m3)
                | None => tell (subscribers m3) m3
                end
            end
        end
  end.

(** [subscribers.add(callback)] and the [subscribers.delete(callback)] of
    the function [subscribe] returns. *)
Definition subscribe {C} (m : machine C) (sb : subscriber C) : machine C :=
  mkMachine (initialState m) (transitions m) (onStateChange m)
            (currentState m) (context m)
            (if existsb (fun sb' => Nat.eqb (sub_id sb') (sub_id sb)) (subscribers m)
             then subscribers m else subscribers m ++ [sb])
            (notices m).

Definition unsubscribe {C} (m : machine C) (id : nat) : machine C :=
  mkMachine (initialState m) (transitions m) (onStateChange m)
            (currentState m) (context m)
            (List.filter (fun sb' => negb (Nat.eqb (sub_id sb') id)) (subscribers m))
            (notices m).

Definition reset {C} (m : machine C) : outcome C :=
  let m1 := set_currentState (initialState m) m in
  tell (subscribers m1) m1.

(** Sending a sequence of events, stopping at the first error. *)
Fixpoint sends {C} (m : machine C) (events : list string) : outcome C :=
  match events with
  | [] => inr m
  | e :: es =>
      match send m e with
      | inl err => inl err
      | inr m' => sends m' es
      end
  end.

Definition plain {C} (from to event : string) : transition C :=
  mkTransition from to event None None.

Definition createToggleMachine (initial : bool) : machine bool :=
  createStateMachine (if initial then "on" else "off") initial
    [plain "off" "on" "toggle"; plain "on" "off" "toggle"] None.

Definition createLoadingMachine : machine unit :=
  createStateMachine "idle" tt
    [plain "idle" "loading" "start";
     plain "loading" "success" "complete";
     plain "loading" "error" "error";
     plain "success" "idle" "start";
     plain "error" "idle" "start"] None.

(** No two transitions leave the same state on the same event. *)
Definition deterministic {C} (ts : list (transition C)) : Prop :=
  forall t1 t2, In t1 ts -> In t2 ts ->
    t_from t1 = t_from t2 -> t_event t1 = t_event t2 -> t1 = t2.

(** No action, [onStateChange] or subscriber of the machine throws. *)
Definition quiet {C} (m : machine C) : Prop :=
  (forall t act c, In t (transitions m) -> t_action t = Some act ->
                   snd (act c) = None) /\
  (forall f from to c, onStateChange m = Some f -> f from to c = None) /\
  Forall (fun sb => forall st c, sub_call sb st c = None) (subscribers m).

(** A turnstile whose context [{ coins: 0 }] counts the coins it holds:
    a coin unlocks it and is kept ([c => { c.coins++ }]); pushing through
    is allowed while a coin is held ([c => c.coins > 0]) and uses it. *)
Definition turnstile : machine nat :=
  createStateMachine "locked" 0%nat
    [mkTransition "locked" "unlocked" "coin" None (Some (fun coins => (S coins, None)));
     mkTransition "unlocked" "locked" "push"
                  (Some (fun coins => Nat.ltb 0 coins))
                  (Some (fun coins => (Nat.pred coins, None)))]
    (Some (fun _ _ _ => None)).

(** The turnstile with a coin slot that is jammed: the action of [coin]
    throws before it counts the coin. *)
Definition jammed : machine nat :=
  createStateMachine "locked" 0%nat
    [mkTransition "locked" "unlocked" "coin" None
                  (Some (fun coins => (coins, Some boom)))]
    None.

(** Two transitions for the same state and event; the guard of the first
    one fails. *)
Definition ambiguous : machine unit :=
  createStateMachine "a" tt
    [mkTransition "a" "b" "go" (Some (fun _ => false)) None;
     plain "a" "c" "go"]
    None.

(** The machines [createToggleMachine] and [createLoadingMachine] are in
    after some events: only [currentState] has changed. *)
Definition toggled (initial on : bool) : machine bool :=
  mkMachine (if initial then "on" else "off")
            [plain "off" "on" "toggle"; plain "on" "off" "toggle"] None
            (if on then "on" else "off") initial [] [].

Definition loading (st : string) : machine unit :=
  mkMachine "idle"
    [plain "idle" "loading" "start";
     plain "loading" "success" "complete";
     plain "loading" "error" "error";
     plain "success" "idle" "start";
     plain "error" "idle" "start"] None st tt [] [].

Definition loading_states : list string := ["idle"; "loading"; "success"; "error"].

End StateMachine.

(** * Unfolding equations *)

Lemma run_S n p s :
  run (S n) p s =
  match p with
  | Return v => Ok v s
  | Value r k => bind (value n r s) (fun v s1 => run n (k v) s1)
  | SetValue r v k => bind (setValue n r (Plain v) s) (fun _ s1 => run n k s1)
  | SetValueWith r f k =>
      bind (setValue n r (Updater f) s) (fun _ s1 => run n k s1)
  | Push v k => run n k (push_log v s)
  | ThrowErr e => Throw e s
  end.
Proof. reflexivity. Qed.

Lemma value_S n r s :
  value (S n) r s =
  match nodes s !! r with
  | Some (Cell c) => Ok (c_currentValue c) (track r s)
  | Some (Derived _) => compute n r s
  | None => Throw typeError s
  end.
Proof. reflexivity. Qed.

Lemma compute_S n r s :
  compute (S n) r s =
  match nodes s !! r with
  | Some (Derived d) =>
      if d_isDirty d then
        bind
          (finally
             (bind (value n (d_dependency d) (enter r s)) (fun v s2 =>
              bind (run n (d_fn d v) (emit (Computed r) s2)) (fun u s3 =>
              Ok u (set_isDirty r false (set_derived_value r u s3)))))
             (set_currentComputation (currentComputation s)))
          (fun _ s4 =>
             match nodes s4 !! r with
             | Some (Derived d4) => Ok (d_currentValue d4) s4
             | _ => Throw typeError s4
             end)
      else Ok (d_currentValue d) s
  | _ => Throw typeError s
  end.
Proof. reflexivity. Qed.

Lemma update_S n r s :
  update (S n) r s =
  match nodes s !! r with
  | Some (Derived d) =>
      bind (compute n r (set_isDirty r true s)) (fun newValue s2 =>
        if strict_neq newValue (d_currentValue d) then
          match nodes s2 !! r with
          | Some (Derived d2) =>
              forEach (fun cb s' =>
                         run n (cb_body cb newValue)
                             (emit (Notified (cb_id cb) newValue) s'))
                      (d_subscribers d2) s2
          | _ => Throw typeError s2
          end
        else Ok tt s2)
  | _ => Ok tt s
  end.
Proof. reflexivity. Qed.

Lemma setValue_S n r a s :
  setValue (S n) r a s =
  match nodes s !! r with
  | Some (Cell c) =>
      bind (match a with
            | Plain v => Ok v s
            | Updater f => run n (f (c_currentValue c)) s
            end) (fun nextValue s1 =>
      match nodes s1 !! r with
      | Some (Cell c1) =>
          if strict_neq nextValue (c_currentValue c1) then
            bind (forEach (fun cb s' =>
                     match nodes s' !! r with
                     | Some (Cell c') =>
                         run n (cb_body cb (c_currentValue c'))
                             (emit (Notified (cb_id cb) (c_currentValue c')) s')
                     | _ => Throw typeError s'
                     end) (c_subscribers c1) (set_cell_value r nextValue s1))
                 (fun _ s3 =>
            match nodes s3 !! r with
            | Some (Cell c3) =>
                forEach (fun d s' => update n d s') (c_derivedStates c3) s3
            | _ => Throw typeError s3
            end)
          else Ok tt s1
      | _ => Throw typeError s1
      end)
  | Some (Derived _) => Throw derivedSetError s
  | None => Throw typeError s
  end.
Proof. reflexivity. Qed.

#[global] Arguments run : simpl never.
#[global] Arguments value : simpl never.
#[global] Arguments compute : simpl never.
#[global] Arguments update : simpl never.
#[global] Arguments setValue : simpl never.
#[global] Arguments dg_add : simpl never.

Lemma strict_neq_same v : strict_neq v v = false.
Proof. unfold strict_neq. rewrite bool_decide_eq_true_2; done. Qed.

Lemma strict_neq_diff v w : v <> w -> strict_neq v w = true.
Proof. intros H. unfold strict_neq. rewrite bool_decide_eq_false_2; done. Qed.

(** * More fuel never changes an outcome *)

Lemma bind_fuel {A B} (m m' : result A) (k k' : A -> state -> result B) :
  (m <> OutOfFuel -> m' = m) ->
  (forall a s, k a s <> OutOfFuel -> k' a s = k a s) ->
  bind m k <> OutOfFuel -> bind m' k' = bind m k.
Proof.
  intros Hm Hk H. destruct m as [a s|e s|]; [| |done].
  - rewrite Hm by done. simpl in *. by apply Hk.
  - by rewrite Hm.
Qed.

Lemma finally_fuel {A} (m m' : result A) (h : state -> state) :
  (m <> OutOfFuel -> m' = m) ->
  finally m h <> OutOfFuel -> finally m' h = finally m h.
Proof. intros Hm H. destruct m; [| |done]; by rewrite Hm. Qed.

Lemma forEach_fuel {A B} (f f' : A -> state -> result B) xs :
  (forall x s, f x s <> OutOfFuel -> f' x s = f x s) ->
  forall s, forEach f xs s <> OutOfFuel -> forEach f' xs s = forEach f xs s.
Proof.
  intros Hf. induction xs as [|x xs IH]; intros s H; [done|].
  simpl in *. apply bind_fuel; [apply Hf| |done].
  intros _ s1. apply IH.
Qed.

Lemma engine_fuel_step n :
  (forall p s, run n p s <> OutOfFuel -> run (S n) p s = run n p s) /\
  (forall r s, value n r s <> OutOfFuel -> value (S n) r s = value n r s) /\
  (forall r s, compute n r s <> OutOfFuel -> compute (S n) r s = compute n r s) /\
  (forall r s, update n r s <> OutOfFuel -> update (S n) r s = update n r s) /\
  (forall r a s, setValue n r a s <> OutOfFuel ->
                 setValue (S n) r a s = setValue n r a s).
Proof.
  induction n as [|n (IHrun & IHvalue & IHcompute & IHupdate & IHset)].
  { by repeat split. }
  repeat split.
  - intros p s. rewrite (run_S (S n)), (run_S n). destruct p; try done.
    + apply bind_fuel; [apply IHvalue|intros; by apply IHrun].
    + apply bind_fuel; [apply IHset|intros; by apply IHrun].
    + apply bind_fuel; [apply IHset|intros; by apply IHrun].
    + apply IHrun.
  - intros r s. rewrite (value_S (S n)), (value_S n).
    destruct (nodes s !! r) as [[c|d]|]; try done. apply IHcompute.
  - intros r s. rewrite (compute_S (S n)), (compute_S n).
    destruct (nodes s !! r) as [[c|d]|]; try done.
    destruct (d_isDirty d); [|done].
    apply bind_fuel; [|done]. apply finally_fuel.
    apply bind_fuel; [apply IHvalue|].
    intros v s2. apply bind_fuel; [apply IHrun|done].
  - intros r s. rewrite (update_S (S n)), (update_S n).
    destruct (nodes s !! r) as [[c|d]|]; try done.
    apply bind_fuel; [apply IHcompute|].
    intros v s2. destruct (strict_neq v (d_currentValue d)); [|done].
    destruct (nodes s2 !! r) as [[c2|d2]|]; try done.
    apply forEach_fuel. intros cb s3. apply IHrun.
  - intros r a s. rewrite (setValue_S (S n)), (setValue_S n).
    destruct (nodes s !! r) as [[c|d]|]; try done.
    apply bind_fuel; [destruct a; [done|apply IHrun]|].
    intros v s1. destruct (nodes s1 !! r) as [[c1|d1]|]; try done.
    destruct (strict_neq v (c_currentValue c1)); [|done].
    apply bind_fuel.
    + apply forEach_fuel. intros cb s2.
      destruct (nodes s2 !! r) as [[c2|d2]|]; try done. apply IHrun.
    + intros _ s3. destruct (nodes s3 !! r) as [[c3|d3]|]; try done.
      apply forEach_fuel. intros d s4. apply IHupdate.
Qed.

(** A read or a write that returns or throws with fuel [n] does the same
    with any larger fuel. *)
Lemma engine_fuel n m :
  (forall r s, value n r s <> OutOfFuel -> value (n + m) r s = value n r s) /\
  (forall r a s, setValue n r a s <> OutOfFuel ->
                 setValue (n + m) r a s = setValue n r a s).
Proof.
  induction m as [|m [IHv IHs]].
  { rewrite Nat.add_0_r. by split. }
  replace (n + S m)%nat with (S (n + m)) by lia. split.
  - intros r s H. rewrite <- (IHv r s H).
    apply (engine_fuel_step (n + m)). by rewrite IHv.
  - intros r a s H. rewrite <- (IHs r a s H).
    apply (engine_fuel_step (n + m)). by rewrite IHs.
Qed.

(** * Outcomes depend only on the heap

    No function of the engine branches on [currentComputation],
    [dependencyGraph] or the object counter: two runs from states with
    the same heap produce the same outcome.  The statement is generic in
    the relation kept between the two states. *)

Section Simulation.
Variable R : state -> state -> Prop.
Hypothesis R_nodes : forall s s', R s s' -> nodes s = nodes s'.
Hypothesis R_set_nodes :
  forall f s s', R s s' -> R (set_nodes f s) (set_nodes f s').
Hypothesis R_computation :
  forall c c' s s', R s s' ->
    R (set_currentComputation c s) (set_currentComputation c' s').
Hypothesis R_fresh : forall s s', R s s' -> R (fresh_obj s) (fresh_obj s').
Hypothesis R_track : forall r s s', R s s' -> R (track r s) (track r s').
Hypothesis R_push : forall v s s', R s s' -> R (push_log v s) (push_log v s').
Hypothesis R_emit : forall e s s', R s s' -> R (emit e s) (emit e s').

Lemma rsim_bind {A B} (m m' : result A) (k k' : A -> state -> result B) :
  rsim R m m' ->
  (forall a s s', R s s' -> rsim R (k a s) (k' a s')) ->
  rsim R (bind m k) (bind m' k').
Proof.
  intros Hm Hk. destruct m, m'; simpl in *; try done.
  destruct Hm as [-> HR]. by apply Hk.
Qed.

Lemma rsim_finally {A} (m m' : result A) (h h' : state -> state) :
  rsim R m m' ->
  (forall s s', R s s' -> R (h s) (h' s')) ->
  rsim R (finally m h) (finally m' h').
Proof.
  intros Hm Hh. destruct m, m'; simpl in *; try done;
    destruct Hm as [-> HR]; split; auto.
Qed.

Lemma rsim_forEach {A B} (f f' : A -> state -> result B) xs :
  (forall x s s', R s s' -> rsim R (f x s) (f' x s')) ->
  forall s s', R s s' -> rsim R (forEach f xs s) (forEach f' xs s').
Proof.
  intros Hf. induction xs as [|x xs IH]; intros s s' HR; simpl.
  - done.
  - apply rsim_bind; [by apply Hf | intros _ s1 s1' H1; by apply IH].
Qed.

Lemma R_enter r s s' : R s s' -> R (enter r s) (enter r s').
Proof. intros H. unfold enter. by apply R_computation, R_fresh. Qed.

Lemma engine_sim n :
  (forall p s s', R s s' -> rsim R (run n p s) (run n p s')) /\
  (forall r s s', R s s' -> rsim R (value n r s) (value n r s')) /\
  (forall r s s', R s s' -> rsim R (compute n r s) (compute n r s')) /\
  (forall r s s', R s s' -> rsim R (update n r s) (update n r s')) /\
  (forall r a s s', R s s' -> rsim R (setValue n r a s) (setValue n r a s')).
Proof.
  induction n as [|n (IHrun & IHvalue & IHcompute & IHupdate & IHset)].
  { repeat split; intros; exact I. }
  assert (Hcompute : forall r s s', R s s' ->
            rsim R (compute (S n) r s) (compute (S n) r s')).
  { intros r s s' HR. rewrite !compute_S, <- (R_nodes _ _ HR).
    destruct (nodes s !! r) as [[c|d]|]; try (by split).
    destruct (d_isDirty d); [|by split].
    apply rsim_bind.
    - apply rsim_finally; [|intros; by apply R_computation].
      apply rsim_bind; [by apply IHvalue, R_enter|].
      intros v s2 s2' H2. apply rsim_bind; [by apply IHrun, R_emit|].
      intros u s3 s3' H3. split; [done|].
      unfold set_isDirty, set_derived_value. by do 2 apply R_set_nodes.
    - intros _ s4 s4' H4. rewrite <- (R_nodes _ _ H4).
      destruct (nodes s4 !! r) as [[c4|d4]|]; by split. }
  repeat split.
  - intros p s s' HR. rewrite !run_S. destruct p.
    + by split.
    + apply rsim_bind; [by apply IHvalue|intros; by apply IHrun].
    + apply rsim_bind; [by apply IHset|intros; by apply IHrun].
    + apply rsim_bind; [by apply IHset|intros; by apply IHrun].
    + by apply IHrun, R_push.
    + by split.
  - intros r s s' HR. rewrite !value_S, <- (R_nodes _ _ HR).
    destruct (nodes s !! r) as [[c|d]|].
    + split; [done|by apply R_track].
    + by apply IHcompute.
    + by split.
  - exact Hcompute.
  - intros r s s' HR. rewrite !update_S, <- (R_nodes _ _ HR).
    destruct (nodes s !! r) as [[c|d]|]; try (by split).
    apply rsim_bind.
    + apply IHcompute. unfold set_isDirty. by apply R_set_nodes.
    + intros v s2 s2' H2. destruct (strict_neq v (d_currentValue d)); [|by split].
      rewrite <- (R_nodes _ _ H2).
      destruct (nodes s2 !! r) as [[c2|d2]|]; try (by split).
      apply rsim_forEach; [|done].
      intros cb t t' Ht. by apply IHrun, R_emit.
  - intros r a s s' HR. rewrite !setValue_S, <- (R_nodes _ _ HR).
    destruct (nodes s !! r) as [[c|d]|]; try (by split).
    apply rsim_bind.
    + destruct a; [by split|by apply IHrun].
    + intros v s1 s1' H1. rewrite <- (R_nodes _ _ H1).
      destruct (nodes s1 !! r) as [[c1|d1]|]; try (by split).
      destruct (strict_neq v (c_currentValue c1)); [|by split].
      apply rsim_bind.
      * apply rsim_forEach.
        -- intros cb t t' Ht. rewrite <- (R_nodes _ _ Ht).
           destruct (nodes t !! r) as [[ct|dt]|]; try (by split).
           by apply IHrun, R_emit.
        -- unfold set_cell_value. by apply R_set_nodes.
      * intros _ s3 s3' H3. rewrite <- (R_nodes _ _ H3).
        destruct (nodes s3 !! r) as [[c3|d3]|]; try (by split).
        apply rsim_forEach; [|done]. intros d t t' Ht. by apply IHupdate.
Qed.
End Simulation.

Lemma observable_sim n r a s s' :
  observable s s' -> rsim observable (setValue n r a s) (setValue n r a s').
Proof.
  apply (engine_sim observable); unfold observable; simpl; intros; intuition congruence.
Qed.

Lemma same_nodes_value n r s s' :
  same_nodes s s' -> rsim same_nodes (value n r s) (value n r s').
Proof.
  apply (engine_sim same_nodes); unfold same_nodes; simpl; intros; congruence.
Qed.

(** * Reading settled states *)

Lemma value_cell n r s c :
  nodes s !! r = Some (Cell c) ->
  value (S n) r s = Ok (c_currentValue c) (track r s).
Proof. intros H. by rewrite value_S, H. Qed.

Lemma value_clean n r s d :
  nodes s !! r = Some (Derived d) -> d_isDirty d = false ->
  value (S (S n)) r s = Ok (d_currentValue d) s.
Proof. intros H Hd. by rewrite value_S, H, compute_S, H, Hd. Qed.

Lemma value_settled n r s v :
  settled (nodes s) r v ->
  exists s', value (S (S n)) r s = Ok v s' /\ bookkeeping s s'.
Proof.
  unfold settled. intros H.
  destruct (nodes s !! r) as [[c|d]|] eqn:E; [| |done].
  - subst v. exists (track r s). by rewrite (value_cell _ _ _ c).
  - destruct H as [Hd <-]. exists s. by rewrite (value_clean _ _ _ d).
Qed.

Lemma run_pure n g v s : run (S n) (pure g v) s = Ok (g v) s.
Proof. reflexivity. Qed.

(** Recomputation of a dirty derived state whose dependency is settled
    and whose function performs no engine operation. *)
Lemma compute_pure n r s d g v :
  nodes s !! r = Some (Derived d) ->
  d_isDirty d = true ->
  d_fn d = pure g ->
  settled (nodes s) (d_dependency d) v ->
  exists s',
    compute (S (S (S n))) r s = Ok (g v) s' /\
    nodes s' = <[r := Derived (mkDerived (g v) false (d_subscribers d)
                                         (pure g) (d_dependency d))]> (nodes s) /\
    log s' = log s /\
    trace s' = trace s ++ [Computed r].
Proof.
  intros Hr Hdirty Hfn Hdep.
  destruct (value_settled n (d_dependency d) (enter r s) v Hdep)
    as (s2 & Hv & Hn2 & Hl2 & Ht2 & _).
  assert (Hlt : (r < length (nodes s))%nat) by by eapply lookup_lt_Some.
  rewrite compute_S, Hr, Hdirty, Hv. cbn [bind].
  rewrite Hfn, run_pure. simpl.
  rewrite Hn2. simpl. rewrite Hr. simpl.
  rewrite list_lookup_insert_eq by done. simpl.
  rewrite list_insert_insert_eq.
  rewrite list_lookup_insert_eq by done.
  eexists. split; [reflexivity|]. simpl.
  rewrite Hn2. simpl. rewrite Hr. simpl.
  rewrite list_lookup_insert_eq by done. simpl.
  rewrite list_insert_insert_eq.
  rewrite Hfn, Hl2, Ht2. done.
Qed.

Lemma nodes_set_cell_value r v s c :
  nodes s !! r = Some (Cell c) ->
  nodes (set_cell_value r v s) =
  <[r := Cell (mkCell v (c_subscribers c) (c_derivedStates c))]> (nodes s).
Proof. intros H. unfold set_cell_value. simpl. by rewrite H. Qed.

Lemma nodes_set_isDirty r b s d :
  nodes s !! r = Some (Derived d) ->
  nodes (set_isDirty r b s) =
  <[r := Derived (mkDerived (d_currentValue d) b (d_subscribers d)
                            (d_fn d) (d_dependency d))]> (nodes s).
Proof. intros H. unfold set_isDirty. simpl. by rewrite H. Qed.

Lemma settled_app ns l r v : settled ns r v -> settled (ns ++ l) r v.
Proof.
  unfold settled. intros H.
  destruct (ns !! r) as [nd|] eqn:E; [|done].
  by rewrite (lookup_app_l_Some _ _ _ _ E).
Qed.

Lemma lookup_alloc (ns : list node) nd : (ns ++ [nd]) !! length ns = Some nd.
Proof. by apply list_lookup_middle. Qed.

Lemma insert_alloc (ns : list node) nd nd' :
  <[length ns := nd']> (ns ++ [nd]) = ns ++ [nd'].
Proof.
  replace (length ns) with (length ns + 0)%nat at 1 by lia.
  by rewrite insert_app_r.
Qed.

(** [createDerivedState] with a settled dependency and a function that
    performs no engine operation: the function is run once, at creation. *)
Lemma createDerivedState_pure n g dep s v :
  settled (nodes s) dep v ->
  exists s',
    createDerivedState (S (S (S n))) (pure g) dep s = Ok (length (nodes s)) s' /\
    nodes s' = nodes s ++ [Derived (mkDerived (g v) false [] (pure g) dep)] /\
    log s' = log s /\
    trace s' = trace s ++ [Computed (length (nodes s))].
Proof.
  intros Hdep. unfold createDerivedState, alloc.
  set (D := mkDerived VUndefined true [] (pure g) dep).
  set (s1 := set_nodes (fun ns => ns ++ [Derived D]) s).
  destruct (compute_pure n (length (nodes s)) s1 D g v) as (s' & Hc & Hn & Hl & Ht).
  - apply lookup_alloc.
  - done.
  - done.
  - by apply settled_app.
  - exists s'. rewrite Hc. cbn [bind]. split; [done|].
    rewrite Hn, Hl, Ht. simpl. by rewrite insert_alloc.
Qed.

Lemma derive_cell_pure n g a s c :
  nodes s !! a = Some (Cell c) ->
  exists s',
    derive (S (S (S n))) a (pure g) s = Ok (length (nodes s)) s' /\
    nodes s' =
      <[a := Cell (mkCell (c_currentValue c) (c_subscribers c)
                          (c_derivedStates c ++ [length (nodes s)]))]>
        (nodes s ++ [Derived (mkDerived (g (c_currentValue c)) false []
                                        (pure g) a)]) /\
    log s' = log s /\
    trace s' = trace s ++ [Computed (length (nodes s))].
Proof.
  intros Ha.
  destruct (createDerivedState_pure n g a s (c_currentValue c)) as (s1 & Hc & Hn & Hl & Ht).
  { unfold settled. by rewrite Ha. }
  unfold derive. rewrite Ha, Hc. cbn [bind].
  eexists. split; [reflexivity|]. unfold add_derivedState. simpl.
  rewrite Hn, (lookup_app_l_Some _ _ _ _ Ha). done.
Qed.

Lemma derive_derived_pure n g a s d :
  nodes s !! a = Some (Derived d) ->
  d_isDirty d = false ->
  exists s',
    derive (S (S (S n))) a (pure g) s = Ok (length (nodes s)) s' /\
    nodes s' = nodes s ++ [Derived (mkDerived (g (d_currentValue d)) false []
                                              (pure g) a)] /\
    log s' = log s /\
    trace s' = trace s ++ [Computed (length (nodes s))].
Proof.
  intros Ha Hd.
  destruct (createDerivedState_pure n g a s (d_currentValue d)) as (s1 & Hc & Hn & Hl & Ht).
  { unfold settled. by rewrite Ha. }
  unfold derive. rewrite Ha. eauto.
Qed.

(** A write of a new value to a cell without subscribers whose only
    derived state [b] has no subscribers and a function that performs no
    engine operation: [b] is recomputed during the write. *)
Lemma setValue_propagate n a b s x w dirty g v :
  nodes s !! a = Some (Cell (mkCell x [] [b])) ->
  nodes s !! b = Some (Derived (mkDerived w dirty [] (pure g) a)) ->
  v <> x ->
  exists s',
    setValue (S (S (S (S (S n))))) a (Plain v) s = Ok tt s' /\
    nodes s' = <[b := Derived (mkDerived (g v) false [] (pure g) a)]>
                 (<[a := Cell (mkCell v [] [b])]> (nodes s)) /\
    log s' = log s /\
    trace s' = trace s ++ [Computed b].
Proof.
  intros Ha Hb Hne.
  assert (Hab : a <> b) by congruence.
  assert (Hla : (a < length (nodes s))%nat) by by eapply lookup_lt_Some.
  assert (Hlb : (b < length (nodes s))%nat) by by eapply lookup_lt_Some.
  set (s2 := set_cell_value a v s).
  assert (Hn2 : nodes s2 = <[a := Cell (mkCell v [] [b])]> (nodes s))
    by (unfold s2; by rewrite (nodes_set_cell_value _ _ _ _ Ha)).
  assert (Ha2 : nodes s2 !! a = Some (Cell (mkCell v [] [b])))
    by (rewrite Hn2; by apply list_lookup_insert_eq).
  assert (Hb2 : nodes s2 !! b = Some (Derived (mkDerived w dirty [] (pure g) a)))
    by (rewrite Hn2, list_lookup_insert_ne by done; done).
  set (s3 := set_isDirty b true s2).
  assert (Hn3 : nodes s3 = <[b := Derived (mkDerived w true [] (pure g) a)]> (nodes s2))
    by (unfold s3; by rewrite (nodes_set_isDirty _ _ _ _ Hb2)).
  destruct (compute_pure n b s3 (mkDerived w true [] (pure g) a) g v)
    as (s4 & Hc & Hn4 & Hl4 & Ht4).
  { rewrite Hn3. apply list_lookup_insert_eq. by rewrite Hn2, length_insert. }
  { done. }
  { done. }
  { unfold settled. cbn [d_dependency]. rewrite Hn3, list_lookup_insert_ne by done. by rewrite Ha2. }
  cbn [d_subscribers d_dependency] in Hn4.
  rewrite Hn3, list_insert_insert_eq, Hn2 in Hn4.
  exists s4. split; [|by rewrite Hn4, Hl4, Ht4].
  rewrite setValue_S, Ha. cbn [bind]. rewrite Ha. simpl c_currentValue.
  rewrite (strict_neq_diff _ _ Hne). simpl c_subscribers.
  cbn [forEach bind]. fold s2. rewrite Ha2. simpl c_derivedStates.
  cbn [forEach]. rewrite update_S, Hb2. fold s3. rewrite Hc. cbn [bind].
  assert (Hb4 : nodes s4 !! b = Some (Derived (mkDerived (g v) false [] (pure g) a))).
  { rewrite Hn4. apply list_lookup_insert_eq. by rewrite length_insert. }
  rewrite Hb4. simpl.
  by destruct (strict_neq (g v) w).
Qed.

Lemma setValue_same n r s c :
  nodes s !! r = Some (Cell c) ->
  setValue (S n) r (Plain (c_currentValue c)) s = Ok tt s.
Proof.
  intros H. rewrite setValue_S, H. cbn [bind]. by rewrite H, strict_neq_same.
Qed.

Lemma last_cons (v x : val) (l : list val) : List.last (v :: l) x = List.last l v.
Proof.
  revert v x. induction l as [|w l IH]; intros v x; [done|].
  change (List.last (v :: w :: l) x) with (List.last (w :: l) x).
  rewrite IH. symmetry. apply IH.
Qed.

Lemma runs_of_app r t t' : runs_of r (t ++ t') = (runs_of r t + runs_of r t')%nat.
Proof. unfold runs_of. by rewrite List.filter_app, length_app. Qed.

Lemma runs_of_other r b : r <> b -> runs_of r [Computed b] = 0%nat.
Proof.
  intros H. unfold runs_of. simpl.
  destruct (Nat.eqb_spec b r); [congruence|done].
Qed.

(** The heap after [a = createReactiveState(x); b = a.derive(g)]. *)
Lemma create_pair n s0 x g :
  let a := fst (createReactiveState x s0) in
  let s1 := snd (createReactiveState x s0) in
  exists b s2,
    derive (S (S (S n))) a (pure g) s1 = Ok b s2 /\
    nodes s2 !! a = Some (Cell (mkCell x [] [b])) /\
    nodes s2 !! b = Some (Derived (mkDerived (g x) false [] (pure g) a)) /\
    length (nodes s2) = S b /\
    log s2 = log s0 /\
    trace s2 = trace s0 ++ [Computed b].
Proof.
  simpl.
  set (C := Cell (mkCell x [] [])).
  set (s1 := set_nodes (fun ns => ns ++ [C]) s0).
  assert (Ha : nodes s1 !! length (nodes s0) = Some C) by apply lookup_alloc.
  destruct (derive_cell_pure n g _ _ _ Ha) as (s2 & Hd & Hn & Hl & Ht).
  assert (Hlen : length (nodes s1) = S (length (nodes s0)))
    by (simpl; rewrite length_app; simpl; lia).
  set (b := length (nodes s1)) in *.
  exists b, s2. split; [done|].
  cbn [c_currentValue c_subscribers c_derivedStates C app] in Hn.
  rewrite Hn, length_insert, length_app. fold b.
  repeat split.
  - apply list_lookup_insert_eq. rewrite length_app. lia.
  - rewrite list_lookup_insert_ne by lia. apply lookup_alloc.
  - simpl. lia.
  - done.
  - done.
Qed.

(** Any sequence of writes to [a] keeps [b] equal to [g] of the last
    written value, and touches no other state. *)
Lemma writes_propagate n a b g vs :
  forall s x,
    nodes s !! a = Some (Cell (mkCell x [] [b])) ->
    nodes s !! b = Some (Derived (mkDerived (g x) false [] (pure g) a)) ->
    exists s',
      writes (S (S (S (S (S n))))) a vs s = Ok tt s' /\
      nodes s' !! a = Some (Cell (mkCell (List.last vs x) [] [b])) /\
      nodes s' !! b = Some (Derived (mkDerived (g (List.last vs x)) false []
                                               (pure g) a)) /\
      (forall r, r <> a -> r <> b -> nodes s' !! r = nodes s !! r) /\
      log s' = log s /\
      (forall r, r <> b -> runs_of r (trace s') = runs_of r (trace s)).
Proof.
  induction vs as [|v vs IH]; intros s x Ha Hb.
  { exists s. by repeat split. }
  assert (Hab : a <> b) by congruence.
  assert (Hstep : exists s1,
    setValue (S (S (S (S (S n))))) a (Plain v) s = Ok tt s1 /\
    nodes s1 !! a = Some (Cell (mkCell v [] [b])) /\
    nodes s1 !! b = Some (Derived (mkDerived (g v) false [] (pure g) a)) /\
    (forall r, r <> a -> r <> b -> nodes s1 !! r = nodes s !! r) /\
    log s1 = log s /\
    (forall r, r <> b -> runs_of r (trace s1) = runs_of r (trace s))).
  { destruct (decide (v = x)) as [->|Hne].
    - exists s. split; [apply (setValue_same _ _ _ _ Ha)|]. by repeat split.
    - destruct (setValue_propagate n a b s x (g x) false g v Ha Hb Hne)
        as (s1 & Hs & Hn & Hl & Ht).
      assert (Hla : (a < length (nodes s))%nat) by by eapply lookup_lt_Some.
      assert (Hlb : (b < length (nodes s))%nat) by by eapply lookup_lt_Some.
      exists s1. split; [done|]. rewrite Hn. repeat split.
      + rewrite list_lookup_insert_ne by done. by apply list_lookup_insert_eq.
      + apply list_lookup_insert_eq. by rewrite length_insert.
      + intros r Hra Hrb. by rewrite !list_lookup_insert_ne.
      + done.
      + intros r Hrb. rewrite Ht, runs_of_app, runs_of_other by done. lia. }
  destruct Hstep as (s1 & Hs & Ha1 & Hb1 & Hframe1 & Hl1 & Ht1).
  destruct (IH s1 v Ha1 Hb1) as (s' & Hw & Ha' & Hb' & Hframe' & Hl' & Ht').
  exists s'. unfold writes in *. cbn [forEach]. rewrite Hs. cbn [bind].
  rewrite last_cons. split; [done|]. repeat split; try done.
  - intros r Hra Hrb. by rewrite Hframe', Hframe1.
  - congruence.
  - intros r Hrb. by rewrite Ht', Ht1.
Qed.

(** * Runs that write nothing

    When no callback stored in the heap writes, reading a state (and
    whatever recomputation the read triggers) changes no cell. *)











(** * Subscribers that only log *)

Lemma forEach_app {A B} (f : A -> state -> result B) xs ys s :
  forEach f (xs ++ ys) s = bind (forEach f xs s) (fun _ s' => forEach f ys s').
Proof.
  revert s. induction xs as [|x xs IH]; intros s; [done|].
  simpl. destruct (f x s) as [b s1|e s1|]; simpl; [apply IH|done|done].
Qed.

Lemma pushed_facts ws :
  forall s,
    nodes (pushed ws s) = nodes s /\
    log (pushed ws s) = log s ++ ws /\
    trace (pushed ws s) = trace s /\
    currentComputation (pushed ws s) = currentComputation s.
Proof.
  induction ws as [|w ws IH]; intros s; simpl.
  - by rewrite app_nil_r.
  - destruct (IH (push_log w s)) as (Hn & Hl & Ht & Hc).
    unfold pushed in *. rewrite Hn, Hl, Ht, Hc. simpl.
    by rewrite <- app_assoc.
Qed.

Lemma run_inert n p :
  forall s, inert_within n p ->
            exists u, run (S n) p s = Ok u (pushed (pushes p) s).
Proof.
  revert p. induction n as [|n IH]; intros p s Hp.
  - destruct p; try done. by eexists.
  - destruct p; try done; [by eexists|].
    rewrite run_S. simpl in Hp |- *. by apply IH.
Qed.

Lemma notify_all_facts v cbs :
  forall s,
    nodes (notify_all v cbs s) = nodes s /\
    log (notify_all v cbs s) = log s ++ pushes_of v cbs /\
    trace (notify_all v cbs s) = trace s ++ notifications_of v cbs /\
    currentComputation (notify_all v cbs s) = currentComputation s.
Proof.
  induction cbs as [|cb cbs IH]; intros s; simpl.
  - by rewrite !app_nil_r.
  - destruct (IH (pushed (pushes (cb_body cb v)) (emit (Notified (cb_id cb) v) s)))
      as (Hn & Hl & Ht & Hc).
    destruct (pushed_facts (pushes (cb_body cb v)) (emit (Notified (cb_id cb) v) s))
      as (Hn1 & Hl1 & Ht1 & Hc1).
    unfold notify_all in *. rewrite Hn, Hl, Ht, Hc, Hn1, Hl1, Ht1, Hc1. simpl.
    unfold pushes_of. simpl. by rewrite <- !app_assoc.
Qed.

Lemma forEach_silent n v cbs :
  Forall (silent n v) cbs ->
  forall s,
    forEach (fun cb s' => run (S n) (cb_body cb v)
                              (emit (Notified (cb_id cb) v) s')) cbs s =
    Ok tt (notify_all v cbs s).
Proof.
  induction 1 as [|cb cbs Hcb _ IH]; intros s; [done|].
  simpl. destruct (run_inert n _ (emit (Notified (cb_id cb) v) s) Hcb) as [u ->].
  cbn [bind]. apply IH.
Qed.

Lemma forEach_silent_cell n r v cbs :
  Forall (silent n v) cbs ->
  forall s c,
    nodes s !! r = Some (Cell c) ->
    c_currentValue c = v ->
    forEach (fun cb s' =>
               match nodes s' !! r with
               | Some (Cell c') =>
                   run (S n) (cb_body cb (c_currentValue c'))
                       (emit (Notified (cb_id cb) (c_currentValue c')) s')
               | _ => Throw typeError s'
               end) cbs s =
    Ok tt (notify_all v cbs s).
Proof.
  induction 1 as [|cb cbs Hcb _ IH]; intros s c Hr Hv; [done|].
  simpl. rewrite Hr, Hv.
  destruct (run_inert n _ (emit (Notified (cb_id cb) v) s) Hcb) as [u ->].
  cbn [bind]. apply (IH _ c); [|done].
  by rewrite (proj1 (pushed_facts _ _)).
Qed.

Lemma setValue_silent
    (n : nat) (r : ref) (v : val) (s : state) (c : cell) :
  nodes s !! r = Some (Cell c) ->
  v <> c_currentValue c ->
  Forall (silent n v) (c_subscribers c) ->
  exists s1,
    setValue (S (S n)) r (Plain v) s =
      forEach (fun d s' => update (S n) d s') (c_derivedStates c) s1 /\
    nodes s1 = <[r := Cell (mkCell v (c_subscribers c) (c_derivedStates c))]>
                 (nodes s) /\
    log s1 = log s ++ pushes_of v (c_subscribers c) /\
    trace s1 = trace s ++ notifications_of v (c_subscribers c).
Proof.
  intros Hr Hne Hsil.
  set (c' := mkCell v (c_subscribers c) (c_derivedStates c)).
  set (s0 := set_cell_value r v s).
  assert (Hn0 : nodes s0 = <[r := Cell c']> (nodes s))
    by (unfold s0; by rewrite (nodes_set_cell_value _ _ _ _ Hr)).
  assert (Hr0 : nodes s0 !! r = Some (Cell c')).
  { rewrite Hn0. apply list_lookup_insert_eq. by eapply lookup_lt_Some. }
  destruct (notify_all_facts v (c_subscribers c) s0) as (Hn & Hl & Ht & _).
  exists (notify_all v (c_subscribers c) s0). split; [|by rewrite Hn, Hl, Ht].
  rewrite setValue_S, Hr. cbn [bind]. rewrite Hr, (strict_neq_diff _ _ Hne).
  fold s0. rewrite (forEach_silent_cell n r v _ Hsil s0 c' Hr0 eq_refl).
  cbn [bind]. by rewrite Hn, Hr0.
Qed.

Lemma inert_within_le p : forall n m, (n <= m)%nat -> inert_within n p -> inert_within m p.
Proof.
  induction p as [| | | |w k IH|]; intros n m Hle Hin;
    destruct n as [|n]; destruct m as [|m]; try done; try lia.
  simpl in *. apply (IH n); [lia|done].
Qed.

Lemma silent_le n m v cbs :
  (n <= m)%nat -> Forall (silent n v) cbs -> Forall (silent m v) cbs.
Proof.
  intros Hle H. eapply Forall_impl; [exact H|].
  intros cb. by apply inert_within_le.
Qed.

Lemma runs_of_notifications r v cbs : runs_of r (notifications_of v cbs) = 0%nat.
Proof. unfold runs_of, notifications_of. by induction cbs. Qed.

(** [update] of a derived state of a cell whose function performs no
    engine operation and whose subscribers only log. *)
Lemma update_pure n d s dd g a ca :
  nodes s !! d = Some (Derived dd) ->
  d_fn dd = pure g ->
  d_dependency dd = a ->
  nodes s !! a = Some (Cell ca) ->
  Forall (silent (S (S n)) (g (c_currentValue ca))) (d_subscribers dd) ->
  exists s',
    update (S (S (S (S n)))) d s = Ok tt s' /\
    nodes s' = <[d := Derived (mkDerived (g (c_currentValue ca)) false
                                         (d_subscribers dd) (pure g) a)]> (nodes s) /\
    forall r, runs_of r (trace s') =
              (runs_of r (trace s) + runs_of r [Computed d])%nat.
Proof.
  intros Hd Hfn Hdep Ha Hsil.
  set (v := c_currentValue ca) in *.
  assert (Had : d <> a) by congruence.
  assert (Hld : (d < length (nodes s))%nat) by by eapply lookup_lt_Some.
  set (D := mkDerived (d_currentValue dd) true (d_subscribers dd) (d_fn dd)
                      (d_dependency dd)).
  set (s3 := set_isDirty d true s).
  assert (Hn3 : nodes s3 = <[d := Derived D]> (nodes s))
    by (unfold s3; by rewrite (nodes_set_isDirty _ _ _ _ Hd)).
  destruct (compute_pure n d s3 D g v) as (s4 & Hc & Hn4 & Hl4 & Ht4).
  { rewrite Hn3. by apply list_lookup_insert_eq. }
  { done. }
  { done. }
  { unfold settled. cbn [D d_dependency]. rewrite Hdep, Hn3.
    rewrite list_lookup_insert_ne by done. by rewrite Ha. }
  cbn [D d_subscribers d_dependency] in Hn4.
  rewrite Hn3, list_insert_insert_eq, Hdep in Hn4.
  assert (Hd4 : nodes s4 !! d =
                Some (Derived (mkDerived (g v) false (d_subscribers dd) (pure g) a))).
  { rewrite Hn4. by apply list_lookup_insert_eq. }
  rewrite update_S, Hd. fold s3. rewrite Hc. cbn [bind].
  destruct (strict_neq (g v) (d_currentValue dd)).
  - rewrite Hd4. cbn [d_subscribers].
    rewrite (forEach_silent _ _ _ Hsil).
    destruct (notify_all_facts (g v) (d_subscribers dd) s4) as (Hn & _ & Ht & _).
    eexists. split; [reflexivity|]. split; [by rewrite Hn|].
    intros r. rewrite Ht, Ht4, !runs_of_app, runs_of_notifications.
    change (trace s3) with (trace s). lia.
  - exists s4. split; [done|]. split; [done|].
    intros r. by rewrite Ht4, runs_of_app.
Qed.

Lemma runs_of_self r : runs_of r [Computed r] = 1%nat.
Proof. unfold runs_of. simpl. by rewrite Nat.eqb_refl. Qed.

(** The loop [derivedStates.forEach(d => d.update())] over such derived
    states: each is recomputed once, nothing else is touched. *)
Lemma updates_eager n a ca ds :
  forall s,
    NoDup ds ->
    nodes s !! a = Some (Cell ca) ->
    Forall (eager_child (S (S n)) a (c_currentValue ca) (nodes s)) ds ->
    exists s',
      forEach (fun d s' => update (S (S (S (S n)))) d s') ds s = Ok tt s' /\
      (forall r, r ∉ ds ->
         nodes s' !! r = nodes s !! r /\
         runs_of r (trace s') = runs_of r (trace s)) /\
      (forall d dd g, d ∈ ds ->
         nodes s !! d = Some (Derived dd) -> d_fn dd = pure g ->
         nodes s' !! d =
           Some (Derived (mkDerived (g (c_currentValue ca)) false
                                    (d_subscribers dd) (pure g) a)) /\
         runs_of d (trace s') = S (runs_of d (trace s))).
Proof.
  induction ds as [|d ds IH]; intros s Hnd Ha Hch.
  { exists s. split; [done|]. split; [done|]. intros d dd g Hd. by apply elem_of_nil in Hd. }
  apply NoDup_cons in Hnd. destruct Hnd as [Hd_notin Hnd].
  apply Forall_cons in Hch. destruct Hch as [(dd & g & Hd & Hfn & Hdep & Hsil) Hch].
  assert (Had : d <> a) by congruence.
  destruct (update_pure n d s dd g a ca Hd Hfn Hdep Ha Hsil) as (s1 & Hu & Hn1 & Hr1).
  assert (Ha1 : nodes s1 !! a = Some (Cell ca))
    by (rewrite Hn1, list_lookup_insert_ne by done; done).
  assert (Hch1 : Forall (eager_child (S (S n)) a (c_currentValue ca) (nodes s1)) ds).
  { rewrite Forall_forall in Hch. apply Forall_forall. intros d' Hd'.
    destruct (Hch d' Hd') as (dd' & g' & Hd'' & Hrest).
    exists dd', g'. split; [|done].
    rewrite Hn1, list_lookup_insert_ne; [done|]. intros ->. done. }
  destruct (IH s1 Hnd Ha1 Hch1) as (s' & Hf & Hother & Hmem).
  exists s'. split; [|split].
  - cbn [forEach]. rewrite Hu. cbn [bind]. exact Hf.
  - intros r Hr. apply not_elem_of_cons in Hr. destruct Hr as [Hrd Hr].
    destruct (Hother r Hr) as [Hn Ht]. split.
    + rewrite Hn, Hn1. by apply list_lookup_insert_ne.
    + rewrite Ht, Hr1, runs_of_other by done. lia.
  - intros d' dd' g' Hd' Hlook Hfn'.
    apply elem_of_cons in Hd'. destruct Hd' as [->|Hd'].
    + destruct (Hother d Hd_notin) as [Hn Ht].
      rewrite Hd in Hlook. injection Hlook as <-.
      assert (Hg : g' (c_currentValue ca) = g (c_currentValue ca)).
      { assert (E : pure g' (c_currentValue ca) = pure g (c_currentValue ca))
          by by rewrite <- Hfn, <- Hfn'.
        by injection E. }
      split.
      * rewrite Hn, Hn1, Hg, <- Hfn', Hfn. by apply list_lookup_insert_eq, lookup_lt_Some with (Derived dd).
      * rewrite Ht, Hr1, runs_of_self. lia.
    + assert (Hne : d' <> d) by (intros ->; done).
      assert (Hlook1 : nodes s1 !! d' = Some (Derived dd'))
        by (rewrite Hn1, list_lookup_insert_ne by done; done).
      destruct (Hmem d' dd' g' Hd' Hlook1 Hfn') as [Hn Ht]. split; [done|].
      rewrite Ht, Hr1, runs_of_other by done. lia.
Qed.

Lemma eager_child_le n m a v ns d :
  (n <= m)%nat -> eager_child n a v ns d -> eager_child m a v ns d.
Proof.
  intros Hle (dd & g & H1 & H2 & H3 & H4).
  exists dd, g. repeat split; try done. by apply (silent_le n).
Qed.

(** A write of a different value to a cell whose subscribers only log
    and whose registered derived states are as above. *)
Lemma setValue_eager n a c v s :
  nodes s !! a = Some (Cell c) ->
  v <> c_currentValue c ->
  NoDup (c_derivedStates c) ->
  Forall (silent n v) (c_subscribers c) ->
  Forall (eager_child n a v (nodes s)) (c_derivedStates c) ->
  exists s',
    setValue (5 + n) a (Plain v) s = Ok tt s' /\
    cell_value a s' = Some v /\
    (forall d dd g, d ∈ c_derivedStates c ->
       nodes s !! d = Some (Derived dd) -> d_fn dd = pure g ->
       nodes s' !! d =
         Some (Derived (mkDerived (g v) false (d_subscribers dd) (pure g) a)) /\
       runs_of d (trace s') = S (runs_of d (trace s))) /\
    (forall r, r <> a -> r ∉ c_derivedStates c ->
       nodes s' !! r = nodes s !! r /\
       runs_of r (trace s') = runs_of r (trace s)).
Proof.
  intros Ha Hne Hnd Hsil Hch.
  set (ca := mkCell v (c_subscribers c) (c_derivedStates c)).
  assert (Hla : (a < length (nodes s))%nat) by by eapply lookup_lt_Some.
  destruct (setValue_silent (S (S (S n))) a v s c Ha Hne) as (s1 & Hset & Hn1 & _ & Ht1).
  { apply (silent_le n); [lia|done]. }
  fold ca in Hn1.
  assert (Ha1 : nodes s1 !! a = Some (Cell ca))
    by (rewrite Hn1; by apply list_lookup_insert_eq).
  assert (Hda : forall d, d ∈ c_derivedStates c -> a <> d).
  { intros d Hd ->. rewrite Forall_forall in Hch.
    destruct (Hch d Hd) as (dd & g & Hlook & _). congruence. }
  assert (Hch1 : Forall (eager_child (S (S n)) a (c_currentValue ca) (nodes s1))
                        (c_derivedStates c)).
  { rewrite Forall_forall in Hch. apply Forall_forall. intros d Hd.
    apply (eager_child_le n); [lia|].
    destruct (Hch d Hd) as (dd & g & Hlook & Hrest).
    exists dd, g. split; [|done].
    rewrite Hn1, list_lookup_insert_ne; [done|by apply Hda]. }
  destruct (updates_eager n a ca (c_derivedStates c) s1 Hnd Ha1 Hch1)
    as (s' & Hf & Hother & Hmem).
  exists s'. split; [|split; [|split]].
  - change (5 + n)%nat with (S (S (S (S (S n))))). rewrite Hset. exact Hf.
  - assert (Hna : a ∉ c_derivedStates c) by (intros Hin; by apply (Hda a Hin)).
    unfold cell_value. rewrite (proj1 (Hother a Hna)), Ha1. done.
  - intros d dd g Hd Hlook Hfn.
    assert (Hlook1 : nodes s1 !! d = Some (Derived dd)).
    { rewrite Hn1, list_lookup_insert_ne; [done|by apply Hda]. }
    destruct (Hmem d dd g Hd Hlook1 Hfn) as [Hn Ht]. split; [exact Hn|].
    by rewrite Ht, Ht1, runs_of_app, runs_of_notifications, Nat.add_0_r.
  - intros r Hra Hr. destruct (Hother r Hr) as [Hn Ht]. split.
    + rewrite Hn, Hn1. by apply list_lookup_insert_ne.
    + by rewrite Ht, Ht1, runs_of_app, runs_of_notifications, Nat.add_0_r.
Qed.

(** * The engine on a bounded call stack *)

Lemma bounded_value_S n r s :
  Bounded.value (S n) r s =
  match nodes s !! r with
  | Some (Cell c) => Ok (c_currentValue c) (track r s)
  | Some (Derived _) => Bounded.compute n r s
  | None => Throw typeError s
  end.
Proof. reflexivity. Qed.

Lemma bounded_compute_S n r s :
  Bounded.compute (S n) r s =
  match nodes s !! r with
  | Some (Derived d) =>
      if d_isDirty d then
        bind
          (finally
             (bind (Bounded.value n (d_dependency d) (enter r s)) (fun v s2 =>
              bind (Bounded.run (Bounded.value n) (Bounded.setValue n) (d_fn d v)
                                (emit (Computed r) s2)) (fun u s3 =>
              Ok u (set_isDirty r false (set_derived_value r u s3)))))
             (set_currentComputation (currentComputation s)))
          (fun _ s4 =>
             match nodes s4 !! r with
             | Some (Derived d4) => Ok (d_currentValue d4) s4
             | _ => Throw typeError s4
             end)
      else Ok (d_currentValue d) s
  | _ => Throw typeError s
  end.
Proof. reflexivity. Qed.

Lemma bounded_update_S n r s :
  Bounded.update (S n) r s =
  match nodes s !! r with
  | Some (Derived d) =>
      bind (Bounded.compute n r (set_isDirty r true s)) (fun newValue s2 =>
        if strict_neq newValue (d_currentValue d) then
          match nodes s2 !! r with
          | Some (Derived d2) =>
              forEach (fun cb s' =>
                         Bounded.run (Bounded.value n) (Bounded.setValue n)
                                     (cb_body cb newValue)
                                     (emit (Notified (cb_id cb) newValue) s'))
                      (d_subscribers d2) s2
          | _ => Throw typeError s2
          end
        else Ok tt s2)
  | _ => Ok tt s
  end.
Proof. reflexivity. Qed.

Lemma bounded_setValue_S n r a s :
  Bounded.setValue (S n) r a s =
  match nodes s !! r with
  | Some (Cell c) =>
      bind (match a with
            | Plain v => Ok v s
            | Updater f =>
                Bounded.run (Bounded.value n) (Bounded.setValue n)
                            (f (c_currentValue c)) s
            end) (fun nextValue s1 =>
      match nodes s1 !! r with
      | Some (Cell c1) =>
          if strict_neq nextValue (c_currentValue c1) then
            bind (forEach (fun cb s' =>
                     match nodes s' !! r with
                     | Some (Cell c') =>
                         Bounded.run (Bounded.value n) (Bounded.setValue n)
                                     (cb_body cb (c_currentValue c'))
                                     (emit (Notified (cb_id cb) (c_currentValue c')) s')
                     | _ => Throw typeError s'
                     end) (c_subscribers c1) (set_cell_value r nextValue s1))
                 (fun _ s3 =>
            match nodes s3 !! r with
            | Some (Cell c3) =>
                forEach (fun d s' => Bounded.update n d s') (c_derivedStates c3) s3
            | _ => Throw typeError s3
            end)
          else Ok tt s1
      | _ => Throw typeError s1
      end)
  | Some (Derived _) => Throw derivedSetError s
  | None => Throw typeError s
  end.
Proof. reflexivity. Qed.

#[global] Arguments Bounded.value : simpl never.
#[global] Arguments Bounded.compute : simpl never.
#[global] Arguments Bounded.update : simpl never.
#[global] Arguments Bounded.setValue : simpl never.

(** Reading a settled state on a bounded stack returns its value, or
    overflows; either way the heap and the context are as before. *)
Lemma bounded_value_settled n r s v :
  settled (nodes s) r v ->
  (exists s', Bounded.value n r s = Ok v s' /\ nodes s' = nodes s /\
              currentComputation s' = currentComputation s) \/
  overflows (nodes s) (currentComputation s) (Bounded.value n r s).
Proof.
  unfold settled. intros H. destruct n as [|n]; [right; by exists s|].
  rewrite bounded_value_S.
  destruct (nodes s !! r) as [[c|d]|] eqn:E; [| |done].
  - subst v. left. by exists (track r s).
  - destruct H as [Hd <-]. destruct n as [|n]; [right; by exists s|].
    rewrite bounded_compute_S, E, Hd. left. by exists s.
Qed.

Section SelfRead.
Variable ns : list node.
Variable r : ref.
Variable d : derived.
Variable x : val.
Hypothesis Hr : ns !! r = Some (Derived d).
Hypothesis Hdirty : d_isDirty d = true.
Hypothesis Hdep : settled ns (d_dependency d) x.
Hypothesis Hfn : reads_itself ns r (d_fn d x).

Lemma bounded_run_self_read n p :
  (forall s, nodes s = ns ->
             overflows ns (currentComputation s) (Bounded.value n r s)) ->
  reads_itself ns r p ->
  forall s, nodes s = ns ->
    exists e s', Bounded.run (Bounded.value n) (Bounded.setValue n) p s = Throw e s' /\
                 e = rangeError /\ nodes s' = ns.
Proof.
  intros IH Hp. induction Hp as [k|v k Hk IHk|r' v k Hs Hk IHk]; intros s Hn.
  - destruct (IH s Hn) as (s' & E & Hn' & _). simpl. rewrite E. by exists rangeError, s'.
  - simpl. by apply IHk.
  - simpl. rewrite <- Hn in Hs.
    destruct (bounded_value_settled n r' s v Hs) as [(s' & E & Hn' & _)|(s' & E & Hn' & _)];
      rewrite E; cbn [bind].
    + apply IHk. congruence.
    + exists rangeError, s'. split; [done|]. split; [done|congruence].
Qed.

Lemma bounded_self_read n :
  forall s, nodes s = ns ->
    overflows ns (currentComputation s) (Bounded.compute n r s) /\
    overflows ns (currentComputation s) (Bounded.value n r s).
Proof.
  induction n as [n IH] using lt_wf_ind. intros s Hn.
  assert (Hcompute : overflows ns (currentComputation s) (Bounded.compute n r s)).
  { destruct n as [|n]; [by exists s|].
    rewrite bounded_compute_S, Hn, Hr, Hdirty.
    assert (Hs1 : settled (nodes (enter r s)) (d_dependency d) x) by (simpl; by rewrite Hn).
    destruct (bounded_value_settled n (d_dependency d) (enter r s) x Hs1)
      as [(s2 & E & Hn2 & _)|(s2 & E & Hn2 & _)]; rewrite E; cbn [bind finally].
    - destruct (bounded_run_self_read n (d_fn d x)) with (s := emit (Computed r) s2)
        as (e & s3 & E3 & -> & Hn3).
      + intros s0 Hs0. apply (IH n); [lia|done].
      + exact Hfn.
      + simpl. by rewrite Hn2.
      + rewrite E3. cbn [bind finally]. eexists. by split.
    - eexists. split; [reflexivity|]. simpl. by rewrite Hn2. }
  split; [exact Hcompute|].
  destruct n as [|n]; [by exists s|].
  rewrite bounded_value_S, Hn, Hr. apply (IH n); [lia|done].
Qed.
End SelfRead.

(** Where the engine returns or throws with fuel [n], it does the same
    on any call stack with room for [n] calls. *)
Lemma agrees_refl {A} (m : result A) : agrees m m.
Proof. by destruct m. Qed.

Lemma agrees_bind {A B} (m m' : result A) (k k' : A -> state -> result B) :
  agrees m m' -> (forall a s, agrees (k a s) (k' a s)) ->
  agrees (bind m k) (bind m' k').
Proof.
  intros Hm Hk. destruct m as [a s|e s|]; simpl in *; [| |done].
  - rewrite Hm. apply Hk.
  - by rewrite Hm.
Qed.

Lemma agrees_finally {A} (m m' : result A) (h : state -> state) :
  agrees m m' -> agrees (finally m h) (finally m' h).
Proof. intros Hm. destruct m; simpl in *; [| |done]; by rewrite Hm. Qed.

Lemma agrees_forEach {A B} (f f' : A -> state -> result B) xs :
  (forall x s, agrees (f x s) (f' x s)) ->
  forall s, agrees (forEach f xs s) (forEach f' xs s).
Proof.
  intros Hf. induction xs as [|x xs IH]; intros s; [done|].
  simpl. apply agrees_bind; [apply Hf|]. intros _ s1. apply IH.
Qed.

Lemma bounded_agrees n :
  (forall p s m, (n <= m)%nat ->
     agrees (run n p s) (Bounded.run (Bounded.value m) (Bounded.setValue m) p s)) /\
  (forall r s m, (n <= m)%nat -> agrees (value n r s) (Bounded.value m r s)) /\
  (forall r s m, (n <= m)%nat -> agrees (compute n r s) (Bounded.compute m r s)) /\
  (forall r s m, (n <= m)%nat -> agrees (update n r s) (Bounded.update m r s)) /\
  (forall r a s m, (n <= m)%nat ->
     agrees (setValue n r a s) (Bounded.setValue m r a s)).
Proof.
  induction n as [|n (IHrun & IHvalue & IHcompute & IHupdate & IHset)].
  { by repeat split. }
  repeat split.
  - intros p s m Hm. rewrite run_S.
    assert (Hm' : (n <= m)%nat) by lia.
    destruct p; simpl.
    + done.
    + apply agrees_bind; [by apply IHvalue|intros; by apply IHrun].
    + apply agrees_bind; [by apply IHset|intros; by apply IHrun].
    + apply agrees_bind; [by apply IHset|intros; by apply IHrun].
    + by apply IHrun.
    + done.
  - intros r s m Hm. destruct m as [|m]; [lia|].
    rewrite value_S, bounded_value_S.
    destruct (nodes s !! r) as [[c|d]|]; try done. apply IHcompute. lia.
  - intros r s m Hm. destruct m as [|m]; [lia|].
    assert (Hm' : (n <= m)%nat) by lia.
    rewrite compute_S, bounded_compute_S.
    destruct (nodes s !! r) as [[c|d]|]; try done.
    destruct (d_isDirty d); [|done].
    apply agrees_bind; [|intros; apply agrees_refl].
    apply agrees_finally. apply agrees_bind; [by apply IHvalue|].
    intros v s2. apply agrees_bind; [by apply IHrun|intros; apply agrees_refl].
  - intros r s m Hm. destruct m as [|m]; [lia|].
    assert (Hm' : (n <= m)%nat) by lia.
    rewrite update_S, bounded_update_S.
    destruct (nodes s !! r) as [[c|d]|]; try done.
    apply agrees_bind; [by apply IHcompute|].
    intros v s2. destruct (strict_neq v (d_currentValue d)); [|done].
    destruct (nodes s2 !! r) as [[c2|d2]|]; try done.
    apply agrees_forEach. intros cb s3. by apply IHrun.
  - intros r a s m Hm. destruct m as [|m]; [lia|].
    assert (Hm' : (n <= m)%nat) by lia.
    rewrite setValue_S, bounded_setValue_S.
    destruct (nodes s !! r) as [[c|d]|]; try done.
    apply agrees_bind; [destruct a; [done|by apply IHrun]|].
    intros v s1. destruct (nodes s1 !! r) as [[c1|d1]|]; try done.
    destruct (strict_neq v (c_currentValue c1)); [|done].
    apply agrees_bind.
    + apply agrees_forEach. intros cb s2.
      destruct (nodes s2 !! r) as [[c2|d2]|]; try done. by apply IHrun.
    + intros _ s3. destruct (nodes s3 !! r) as [[c3|d3]|]; try done.
      apply agrees_forEach. intros d s4. by apply IHupdate.
Qed.

(** * The claims *)

(** ** C1 *)



(** ** C2 *)

(** C2. What the code does on the diamond: after [a.setValue(2)], [b] is
    3 and [c] is 20, but [d] still reads 12 (not 23); its compute
    function ran once, at creation, and the write did not run it. *)
Theorem diamond_is_stale (n : nat) :
  returned (diamond (6 + n)) = Some (VNum 3, VNum 20, VNum 12, 1%nat, 1%nat) /\
  returned (diamond_chained (6 + n)) =
    Some (VNum 3, VNum 20, VNum 12, 1%nat, 1%nat).
Proof. split; vm_compute; reflexivity. Qed.

(** ** C3 *)

(** C3. What the code does on a batch of two writes: an effect created
    with [createReactiveEffect] is not run at all (the log keeps the one
    entry of its creation), and a subscriber of the cell is notified once
    per write, with 1 and then with 2. *)
Theorem batch_runs_sequentially (n : nat) :
  returned (batch_effect (4 + n)) =
    Some ([VNum 0], [VNum 0], Some (VNum 2)) /\
  returned (batch_subscriber (4 + n)) =
    Some ([VNum 1; VNum 2], [Notified 0 (VNum 1); Notified 0 (VNum 2)]).
Proof. split; vm_compute; reflexivity. Qed.

(** ** C4 *)

(** C4, counterexample.  Without any read, the compute function of [b]
    has run once after [a.derive(...)] and twice after [a.setValue(3)];
    the claim has it run zero times in both places. *)
Lemma laziness_counterexample :
  returned (eager_probe 10) = Some (1%nat, 2%nat) /\
  returned (eager_probe 10) <> Some (0%nat, 0%nat).
Proof. split; [vm_compute; reflexivity | vm_compute; congruence]. Qed.

(** C4, as the code has it.  Derived states are computed eagerly.
    Creation: [createDerivedState] ends with [compute()], so creating a
    derived state with a function that performs no engine operation,
    over a cell or a clean derived state, runs the function exactly
    once, at creation, and leaves the state clean with the result
    cached; [derive] does the same and, on a cell only, also registers
    the new state in the cell's [derivedStates].  Write: for a cell whose
    subscribers only log and whose registered derived states are derived
    states of that cell with such functions and with subscribers that
    only log, a write of a different value runs the
    function of every registered derived state exactly once during the
    write itself ([update] marks the state dirty and calls [compute()]
    at once) and leaves it clean with the new result; every other state
    is left as it was, so a derived state that is not registered in the
    written cell (created by [createDerivedState] directly, or derived
    from a derived state) is neither marked dirty nor recomputed.  A
    write of the value the cell holds runs nothing.  Read: reading a
    clean derived state returns the cache and runs nothing. *)
Theorem eager_recomputation (n : nat) (s : state) :
  (forall g dep x,
     settled (nodes s) dep x ->
     exists s1 s2,
       createDerivedState (5 + n) (pure g) dep s = Ok (length (nodes s)) s1 /\
       nodes s1 = nodes s ++ [Derived (mkDerived (g x) false [] (pure g) dep)] /\
       trace s1 = trace s ++ [Computed (length (nodes s))] /\
       derive (5 + n) dep (pure g) s = Ok (length (nodes s)) s2 /\
       trace s2 = trace s ++ [Computed (length (nodes s))] /\
       nodes s2 = match nodes s !! dep with
                  | Some (Cell c) =>
                      <[dep := Cell (mkCell (c_currentValue c) (c_subscribers c)
                                            (c_derivedStates c ++ [length (nodes s)]))]>
                        (nodes s1)
                  | _ => nodes s1
                  end) /\
  (forall a c v,
     nodes s !! a = Some (Cell c) ->
     v <> c_currentValue c ->
     NoDup (c_derivedStates c) ->
     Forall (silent n v) (c_subscribers c) ->
     Forall (eager_child n a v (nodes s)) (c_derivedStates c) ->
     exists s',
       setValue (5 + n) a (Plain v) s = Ok tt s' /\
       cell_value a s' = Some v /\
       (forall d dd g, d ∈ c_derivedStates c ->
          nodes s !! d = Some (Derived dd) -> d_fn dd = pure g ->
          nodes s' !! d =
            Some (Derived (mkDerived (g v) false (d_subscribers dd) (pure g) a)) /\
          runs_of d (trace s') = S (runs_of d (trace s))) /\
       (forall r, r <> a -> r ∉ c_derivedStates c ->
          nodes s' !! r = nodes s !! r /\
          runs_of r (trace s') = runs_of r (trace s))) /\
  (forall a c,
     nodes s !! a = Some (Cell c) ->
     setValue (5 + n) a (Plain (c_currentValue c)) s = Ok tt s) /\
  (forall r d,
     nodes s !! r = Some (Derived d) -> d_isDirty d = false ->
     value (5 + n) r s = Ok (d_currentValue d) s).
Proof.
  change (5 + n)%nat with (S (S (S (S (S n))))). repeat split.
  - intros g dep x Hdep.
    destruct (createDerivedState_pure (S (S n)) g dep s x Hdep) as (s1 & Hc & Hn1 & _ & Ht1).
    unfold settled in Hdep.
    destruct (nodes s !! dep) as [[c|d]|] eqn:E; [| |done].
    + subst x.
      destruct (derive_cell_pure (S (S n)) g dep s c E) as (s2 & Hd & Hn2 & _ & Ht2).
      exists s1, s2. rewrite Hn1. by repeat split.
    + destruct Hdep as [Hclean <-].
      destruct (derive_derived_pure (S (S n)) g dep s d E Hclean)
        as (s2 & Hd & Hn2 & _ & Ht2).
      exists s1, s2. rewrite Hn1. by repeat split.
  - intros a c v. apply setValue_eager.
  - intros a c Ha. by apply setValue_same.
  - intros r d Hr Hd. by apply value_clean.
Qed.

(** In [eager_state]: a derived state created over [a] is computed once,
    at creation, and only [derive] registers it; [a.setValue(5)]
    recomputes the registered [b] (10, second run) and touches neither
    [u], created by [createDerivedState] directly (still 101), nor [w],
    derived from [b] (still 3); [a.setValue(1)] and [b.value()] change
    nothing. *)
Lemma eager_recomputation_witness :
  (exists s1 s2,
     createDerivedState 6 (arith (fun x => x - 1)) 0 eager_state = Ok 4%nat s1 /\
     derived_cache 4 s1 = Some (VNum 0, false) /\
     runs_of 4 (trace s1) = 1%nat /\
     nodes s1 !! 0%nat = nodes eager_state !! 0%nat /\
     derive 6 0 (arith (fun x => x - 1)) eager_state = Ok 4%nat s2 /\
     runs_of 4 (trace s2) = 1%nat /\
     nodes s2 !! 0%nat =
       Some (Cell (mkCell (VNum 1) [mkCallback 0 logger] [1%nat; 4%nat]))) /\
  (exists s',
     setValue 6 0 (Plain (VNum 5)) eager_state = Ok tt s' /\
     cell_value 0 s' = Some (VNum 5) /\
     (derived_cache 1 s' = Some (VNum 10, false) /\ runs_of 1 (trace s') = 2%nat) /\
     (derived_cache 2 s' = Some (VNum 101, false) /\ runs_of 2 (trace s') = 1%nat) /\
     (derived_cache 3 s' = Some (VNum 3, false) /\ runs_of 3 (trace s') = 1%nat)) /\
  setValue 6 0 (Plain (VNum 1)) eager_state = Ok tt eager_state /\
  value 6 1 eager_state = Ok (VNum 2) eager_state.
Proof.
  destruct (eager_recomputation 1 eager_state) as (Hcreate & Hwrite & Hsame & Hread).
  split; [|split; [|split]].
  - destruct (Hcreate (lift (fun x => x - 1)) 0%nat (VNum 1) eq_refl)
      as (s1 & s2 & H1 & Hn1 & Ht1 & H2 & Ht2 & Hn2).
    exists s1, s2. split; [exact H1|]. split; [|split; [|split; [|split; [exact H2|split]]]].
    + unfold derived_cache. by rewrite Hn1.
    + by rewrite Ht1.
    + by rewrite Hn1.
    + by rewrite Ht2.
    + simpl in Hn2. by rewrite Hn2, Hn1.
  - destruct (Hwrite 0%nat (mkCell (VNum 1) [mkCallback 0 logger] [1%nat]) (VNum 5))
      as (s' & H1 & H2 & H3 & H4).
    + reflexivity.
    + done.
    + apply NoDup_singleton.
    + repeat constructor.
    + repeat constructor.
      exists (mkDerived (VNum 2) false [] (arith (fun x => x * 2)) 0),
             (lift (fun x => x * 2)).
      repeat split. constructor.
    + exists s'. split; [exact H1|]. split; [exact H2|].
      destruct (H3 1%nat _ (lift (fun x => x * 2)) ltac:(by left) eq_refl eq_refl)
        as [Hb Hrb].
      destruct (H4 2%nat) as [Hu Hru]; [done|by intros ?%list_elem_of_singleton|].
      destruct (H4 3%nat) as [Hw Hrw]; [done|by intros ?%list_elem_of_singleton|].
      unfold derived_cache. rewrite Hb, Hu, Hw, Hrb, Hru, Hrw. by repeat split.
  - exact (Hsame 0%nat (mkCell (VNum 1) [mkCallback 0 logger] [1%nat]) eq_refl).
  - exact (Hread 1%nat (mkDerived (VNum 2) false [] (arith (fun x => x * 2)) 0)
                 eq_refl eq_refl).
Defined.

(** ** C5 *)

(** C5. What the code does with an effect that reads [a]: the function
    runs once at creation (the log is [[0]]); writes that change [a] to 1
    and then 2 do not run it again (the log is still [[0]]); the returned
    function removes the subscription from the effect's private cell. *)
Theorem effect_never_reruns (n : nat) :
  returned (effect_scenario (3 + n)) =
    Some ([VNum 0], [VNum 0], Some (VNum 2), [0%nat], []).
Proof. vm_compute. reflexivity. Qed.

(** ** C6 *)

(** C6, counterexample.  A compute function that writes a cell: the
    write is applied ([c] holds 5 when [derive] returns normally), and at
    no fuel does the call fail with [WriteDuringComputeError]. *)
Lemma write_during_compute_counterexample :
  returned (write_in_compute 10) = Some (Some (VNum 5), Some (VNum 5, false)) /\
  ~ (exists n s, write_in_compute n = Throw writeDuringComputeError s).
Proof.
  split; [vm_compute; reflexivity|].
  intros (n & s & H).
  destruct n as [|[|[|m]]]; vm_compute in H; discriminate.
Qed.

(** C6, as the code has it.  [setValue] never consults
    [currentComputation]: a write made while a computation is active has
    the same outcome (result or error, heap, log, notifications and
    recomputations) as the same write made with no active computation. *)
Theorem write_ignores_computation
    (n : nat) (r : ref) (a : setArg) (k : computation) (s : state) :
  rsim observable
    (setValue n r a (set_currentComputation (Some k) s))
    (setValue n r a (set_currentComputation None s)).
Proof.
  apply observable_sim. unfold observable. by simpl.
Qed.

(** ** C7 *)

(** C7, counterexample.  In [cyclic_state], [a.setValue(1)] makes [d]
    recompute with a function that reads [d].  On a call stack with room
    for 50 calls the write throws [RangeError], leaving [d] dirty with
    its old cache; on no call stack does it throw
    [CyclicDependencyError]. *)
Lemma cycle_detection_counterexample :
  derived_cache 1 cyclic_state = Some (VNum 0, false) /\
  (exists s', Bounded.setValue 50 0 (Plain (VNum 1)) cyclic_state = Throw rangeError s' /\
              derived_cache 1 s' = Some (VNum 0, true)) /\
  ~ (exists n s', Bounded.setValue n 0 (Plain (VNum 1)) cyclic_state =
                  Throw cyclicDependencyError s').
Proof.
  split; [vm_compute; reflexivity|]. split.
  - eexists. split; [vm_compute; reflexivity|]. vm_compute. reflexivity.
  - intros (n & s' & H).
    assert (Hov : exists s0, Bounded.setValue n 0 (Plain (VNum 1)) cyclic_state =
                             Throw rangeError s0).
    { clear H. destruct n as [|n]; [by eexists|].
      rewrite bounded_setValue_S.
      change (nodes cyclic_state) with
        [Cell (mkCell (VNum 0) [] [1%nat]);
         Derived (mkDerived (VNum 0) false [] (selfRead 1) 0)].
      simpl lookup. cbn [bind]. simpl lookup.
      cbn [c_currentValue c_subscribers].
      change (strict_neq (VNum 1) (VNum 0)) with true. cbn [forEach bind].
      rewrite (nodes_set_cell_value _ _ _ (mkCell (VNum 0) [] [1%nat])) by done.
      simpl lookup. cbn [c_derivedStates forEach].
      destruct n as [|n]; [by eexists|].
      rewrite bounded_update_S.
      rewrite (nodes_set_cell_value _ _ _ (mkCell (VNum 0) [] [1%nat])) by done.
      simpl lookup.
      destruct (bounded_self_read (nodes dirty_cycle) 1
                  (mkDerived (VNum 0) true [] (selfRead 1) 0) (VNum 1)
                  eq_refl eq_refl eq_refl (reads_here _ _ _) n dirty_cycle eq_refl)
        as [(s0 & E & _) _].
      change (set_isDirty 1 true (set_cell_value 0 (VNum 1) cyclic_state))
        with dirty_cycle.
      rewrite E. by eexists. }
    destruct Hov as (s0 & E). rewrite E in H. discriminate H.
Qed.

(** C7, as the code has it.  There is no cycle detection.  When the
    function of a dirty derived state, applied to the value of its
    dependency (a cell or a clean derived state), reads that same state,
    possibly after logging and reading settled states, [compute]
    re-enters itself until the call stack is exhausted: on a call stack
    of any size the read fails with [RangeError].  The heap is then as
    it was, so the cached value remains at its prior state and the dirty
    flag stays true; [currentComputation] is restored; and the next read
    retries, and fails in the same way. *)
Theorem self_read_overflows
    (n : nat) (r : ref) (s : state) (d : derived) (x : val) :
  nodes s !! r = Some (Derived d) ->
  d_isDirty d = true ->
  settled (nodes s) (d_dependency d) x ->
  reads_itself (nodes s) r (d_fn d x) ->
  exists s' s'',
    Bounded.value n r s = Throw rangeError s' /\
    nodes s' = nodes s /\
    currentComputation s' = currentComputation s /\
    Bounded.value n r s' = Throw rangeError s'' /\
    nodes s'' = nodes s.
Proof.
  intros Hr Hd Hdep Hfn.
  destruct (bounded_self_read (nodes s) r d x Hr Hd Hdep Hfn n s eq_refl)
    as [_ (s' & E & Hn & Hc)].
  destruct (bounded_self_read (nodes s) r d x Hr Hd Hdep Hfn n s' Hn)
    as [_ (s'' & E' & Hn' & _)].
  by exists s', s''.
Qed.

(** In [dirty_cycle] the read of [d] overflows, and so does the retry. *)
Lemma self_read_overflows_witness :
  exists s' s'',
    Bounded.value 100 1 dirty_cycle = Throw rangeError s' /\
    derived_cache 1 s' = Some (VNum 0, true) /\
    currentComputation s' = None /\
    Bounded.value 100 1 s' = Throw rangeError s'' /\
    derived_cache 1 s'' = Some (VNum 0, true).
Proof.
  destruct (self_read_overflows 100 1 dirty_cycle
              (mkDerived (VNum 0) true [] (selfRead 1) 0) (VNum 1)
              eq_refl eq_refl eq_refl (reads_here _ _ _))
    as (s' & s'' & E & Hn & Hc & E' & Hn').
  exists s', s''. split; [exact E|]. split; [|split; [exact Hc|split; [exact E'|]]].
  - unfold derived_cache. by rewrite Hn.
  - unfold derived_cache. by rewrite Hn'.
Defined.

(** ** C8 *)

Lemma value_settled_any n r s v :
  settled (nodes s) r v ->
  value n r s = OutOfFuel \/
  exists s', value n r s = Ok v s' /\ bookkeeping s s'.
Proof.
  intros H. destruct n as [|[|n]].
  - by left.
  - unfold settled in H. rewrite value_S.
    destruct (nodes s !! r) as [[c|d]|]; [|by left|done].
    right. exists (track r s). by subst v.
  - right. by apply value_settled.
Qed.

(** A calm body leaves the heap, the trace and the computation context
    as they were, whatever it returns or throws. *)
Lemma run_calm ns p :
  calm ns p ->
  forall n s,
    nodes s = ns ->
    match run n p s with
    | Ok _ s' | Throw _ s' =>
        nodes s' = nodes s /\ trace s' = trace s /\
        currentComputation s' = currentComputation s
    | OutOfFuel => True
    end.
Proof.
  induction 1 as [v|e|v k Hk IH|r v k Hr Hk IH];
    intros n s Hs; (destruct n as [|n]; [done|]); rewrite run_S; try done.
  - specialize (IH n (push_log v s) Hs).
    by destruct (run n k (push_log v s)).
  - rewrite <- Hs in Hr.
    destruct (value_settled_any n r s v Hr) as [->|(s1 & -> & Hn & _ & Ht & Hcc)];
      [done|].
    cbn [bind]. specialize (IH n s1 (eq_trans Hn Hs)).
    destruct (run n (k v) s1); [| |done]; by rewrite <- Hn, <- Ht, <- Hcc.
Qed.

(** C8, counterexample.  In [reentrant_state], [b] is dirty with cache
    5; [b.value()] runs a compute function that writes [a] before it
    throws, the write recomputes [b], and when the error reaches the
    caller the cache of [b] is 7 and [b] is no longer dirty. *)
Lemma recompute_atomicity_counterexample :
  derived_cache 2 reentrant_state = Some (VNum 5, true) /\
  exists s', value 10 2 reentrant_state = Throw boom s' /\
             derived_cache 2 s' = Some (VNum 7, false).
Proof.
  split; [vm_compute; reflexivity|].
  eexists. split; vm_compute; reflexivity.
Qed.

(** What a failed recomputation leaves behind, when the compute function
    writes nothing and reads only settled states. *)
Lemma failed_recompute_frame
    (n : nat) (r : ref) (s s' : state) (d : derived) (v : val) (e : error) :
  nodes s !! r = Some (Derived d) ->
  d_isDirty d = true ->
  settled (nodes s) (d_dependency d) v ->
  calm (nodes s) (d_fn d v) ->
  value n r s = Throw e s' ->
  nodes s' = nodes s /\
  currentComputation s' = currentComputation s /\
  trace s' = trace s ++ [Computed r].
Proof.
  intros Hr Hd Hdep Hcalm Hv.
  destruct n as [|[|n]]; [done| |].
  { rewrite value_S, Hr in Hv. done. }
  rewrite value_S, Hr, compute_S, Hr, Hd in Hv.
  destruct (value_settled_any n (d_dependency d) (enter r s) v Hdep)
    as [E|(s2 & E & Hn2 & _ & Ht2 & _)]; rewrite E in Hv; [done|].
  cbn [bind] in Hv.
  pose proof (run_calm (nodes s) _ Hcalm n (emit (Computed r) s2) Hn2) as Hrun.
  destruct (run n (d_fn d v) (emit (Computed r) s2)) as [u s3|e3 s3|] eqn:Erun;
    [| |done].
  - exfalso. destruct Hrun as (Hn3 & _). cbn [bind finally] in Hv.
    simpl in Hn3, Hn2. revert Hv. simpl nodes.
    rewrite Hn3, Hn2, Hr.
    rewrite list_lookup_insert_eq by by eapply lookup_lt_Some.
    rewrite list_lookup_insert_eq
      by (rewrite length_insert; by eapply lookup_lt_Some).
    done.
  - destruct Hrun as (Hn3 & Ht3 & _). cbn [bind finally] in Hv.
    simpl in Hn3, Ht3, Hn2, Ht2.
    injection Hv as <- <-. simpl.
    by rewrite Hn3, Ht3, Hn2, Ht2.
Qed.

Lemma throws_calm ns e p : throws ns e p -> calm ns p.
Proof. induction 1; econstructor; eauto. Qed.

(** With enough fuel, a body that ends in [throw e] throws [e]. *)
Lemma run_throws ns e p :
  throws ns e p ->
  exists N, forall n s, nodes s = ns -> exists s', run (N + n) p s = Throw e s'.
Proof.
  induction 1 as [|v k Hk [N IH]|r v k Hr Hk [N IH]].
  - exists 1%nat. intros n s _. by exists s.
  - exists (S N). intros n s Hs. change (S N + n)%nat with (S (N + n)).
    rewrite run_S. by apply IH.
  - exists (S (S (S N))). intros n s Hs.
    change (S (S (S N)) + n)%nat with (S (S (S (N + n)))).
    rewrite run_S. rewrite <- Hs in Hr.
    destruct (value_settled (N + n) r s v Hr) as (s1 & -> & Hn & _).
    cbn [bind].
    destruct (IH (2 + n)%nat s1 (eq_trans Hn Hs)) as (s' & Hrun).
    exists s'. rewrite <- Hrun. f_equal. lia.
Qed.

(** C8, as the code has it.  When the compute function of a dirty
    derived state writes nothing, reads only settled states, and ends in
    [throw e], a read with enough fuel re-throws [e], leaves every
    closure environment as it was (the state's own cache and dirty flag,
    and every other state), restores the computation context, and has run
    the function once; a read repeated afterwards throws [e] again. *)
Theorem failed_recompute_atomic
    (r : ref) (s : state) (d : derived) (v : val) (e : error) :
  nodes s !! r = Some (Derived d) ->
  d_isDirty d = true ->
  settled (nodes s) (d_dependency d) v ->
  throws (nodes s) e (d_fn d v) ->
  exists N, forall n,
    exists s',
      value (N + n) r s = Throw e s' /\
      nodes s' = nodes s /\
      currentComputation s' = currentComputation s /\
      trace s' = trace s ++ [Computed r] /\
      exists s'', value (N + n) r s' = Throw e s'' /\ nodes s'' = nodes s.
Proof.
  intros Hr Hd Hdep Hthrows.
  destruct (run_throws _ _ _ Hthrows) as (N & Hrun).
  exists (S (S (S (S N)))). intros n.
  assert (Hv : exists s', value (S (S (S (S N))) + n) r s = Throw e s').
  { change (S (S (S (S N))) + n)%nat with (S (S (S (S (N + n))))).
    rewrite value_S, Hr, compute_S, Hr, Hd.
    destruct (value_settled (N + n) (d_dependency d) (enter r s) v Hdep)
      as (s2 & -> & Hn2 & _).
    cbn [bind].
    destruct (Hrun (2 + n)%nat (emit (Computed r) s2) Hn2) as (s3 & Hs3).
    replace (N + (2 + n))%nat with (S (S (N + n))) in Hs3 by lia.
    rewrite Hs3. cbn [bind finally]. eauto. }
  destruct Hv as (s' & Hv). exists s'. split; [done|].
  destruct (failed_recompute_frame _ r s s' d v e Hr Hd Hdep
              (throws_calm _ _ _ Hthrows) Hv) as (Hn & Hcc & Ht).
  repeat split; try done.
  pose proof (same_nodes_value (S (S (S (S N))) + n) r s' s Hn) as Hsim.
  rewrite Hv in Hsim.
  destruct (value (S (S (S (S N))) + n) r s') as [| e'' s''|]; try done.
  destruct Hsim as [-> Hs'']. exists s''. split; [done|].
  unfold same_nodes in Hs''. congruence.
Qed.

(** The derived state [b1] of [failing_state]: its compute function
    pushes to the log and throws. *)
Lemma failed_recompute_witness :
  exists N, forall n,
    exists s',
      value (N + n) 1 failing_state = Throw boom s' /\
      nodes s' = nodes failing_state /\
      currentComputation s' = currentComputation failing_state /\
      trace s' = trace failing_state ++ [Computed 1%nat] /\
      exists s'', value (N + n) 1 s' = Throw boom s'' /\
                  nodes s'' = nodes failing_state.
Proof.
  apply (failed_recompute_atomic 1 failing_state
           (mkDerived (VNum 1) true [] failing 0) (VNum 2) boom).
  - reflexivity.
  - reflexivity.
  - reflexivity.
  - apply throws_Push, throws_ThrowErr.
Defined.

(** ** C9 *)

(** C9. Writing to a cell the value it already holds is a no-op: the
    call returns with the state exactly as it was, so the stored value is
    unchanged and neither a subscriber nor a derived state's [update] has
    run (each would have left an event in the trace). *)
Theorem write_equal_noop
    (n : nat) (r : ref) (s : state) (c : cell) (g : val -> val) :
  nodes s !! r = Some (Cell c) ->
  g (c_currentValue c) = c_currentValue c ->
  setValue (S n) r (Plain (c_currentValue c)) s = Ok tt s /\
  setValue (S (S n)) r (Updater (pure g)) s = Ok tt s.
Proof.
  intros H Hg. split.
  - rewrite setValue_S, H. cbn [bind]. by rewrite H, strict_neq_same.
  - rewrite setValue_S, H, run_pure. cbn [bind].
    by rewrite H, Hg, strict_neq_same.
Qed.

(** The cell of [subscribed_state] has a subscriber and a derived state;
    writing 7 to it again, as a value or through the identity updater,
    changes nothing. *)
Lemma write_equal_noop_witness :
  setValue 1 0 (Plain (VNum 7)) subscribed_state = Ok tt subscribed_state /\
  setValue 2 0 (Updater (pure (fun v => v))) subscribed_state =
    Ok tt subscribed_state.
Proof.
  apply (write_equal_noop 0 0 subscribed_state
           (mkCell (VNum 7)
                   [mkCallback 0 (fun v => Push v (Return VUndefined))]
                   [1%nat])
           (fun v => v)); reflexivity.
Defined.

(** ** C10 *)

(** C10. A derivation of a derivation is never updated: [d1.derive(g)]
    registers the new state nowhere (no existing state changes), and
    after [d1 = a.derive(f); d2 = d1.derive(g)] and any sequence of
    writes to [a], [d1] follows the cell but [d2.value()] is still
    [g (f x)] for the initial [x], and the compute function of [d2] has
    not run since its creation. *)
Theorem second_level_stale
    (s0 : state) (x : val) (f g : val -> val) (vs : list val) (n : nat) :
  let a := fst (createReactiveState x s0) in
  let s1 := snd (createReactiveState x s0) in
  exists d1 s2 d2 s3 s4,
    derive (5 + n) a (pure f) s1 = Ok d1 s2 /\
    derive (5 + n) d1 (pure g) s2 = Ok d2 s3 /\
    (forall r, r <> d2 -> nodes s3 !! r = nodes s2 !! r) /\
    writes (5 + n) a vs s3 = Ok tt s4 /\
    value (5 + n) a s4 = Ok (List.last vs x) (track a s4) /\
    value (5 + n) d1 s4 = Ok (f (List.last vs x)) s4 /\
    value (5 + n) d2 s4 = Ok (g (f x)) s4 /\
    runs_of d2 (trace s4) = runs_of d2 (trace s3).
Proof.
  intros a s1.
  destruct (create_pair (2 + n) s0 x f) as (d1 & s2 & Hd1 & Ha & Hb & Hlen & _).
  fold a s1 in Hd1, Ha, Hb.
  destruct (derive_derived_pure (2 + n) g d1 s2 _ Hb eq_refl)
    as (s3 & Hd2 & Hn3 & _ & _).
  set (d2 := length (nodes s2)) in *.
  assert (Ha3 : nodes s3 !! a = Some (Cell (mkCell x [] [d1])))
    by (rewrite Hn3; by apply lookup_app_l_Some).
  assert (Hb3 : nodes s3 !! d1 = Some (Derived (mkDerived (f x) false [] (pure f) a)))
    by (rewrite Hn3; by apply lookup_app_l_Some).
  assert (Hc3 : nodes s3 !! d2 =
                Some (Derived (mkDerived (g (f x)) false [] (pure g) d1)))
    by (rewrite Hn3; apply lookup_alloc).
  assert (Hla : (a < length (nodes s2))%nat) by by eapply lookup_lt_Some.
  destruct (writes_propagate n a d1 f vs s3 x Ha3 Hb3)
    as (s4 & Hw & Ha4 & Hb4 & Hframe & _ & Hruns).
  exists d1, s2, d2, s3, s4. repeat split.
  - exact Hd1.
  - exact Hd2.
  - intros r Hr. rewrite Hn3.
    destruct (decide (r < length (nodes s2))%nat) as [Hlt|Hge].
    + by apply lookup_app_l.
    + rewrite !lookup_ge_None_2; [done|lia|].
      rewrite length_app. simpl. unfold d2 in Hr. lia.
  - exact Hw.
  - exact (value_cell _ _ _ _ Ha4).
  - exact (value_clean _ _ _ _ Hb4 eq_refl).
  - apply (value_clean _ _ _ (mkDerived (g (f x)) false [] (pure g) d1)); [|done].
    rewrite Hframe; [done| |]; unfold d2; lia.
  - apply Hruns. unfold d2. lia.
Qed.

(** * Further properties of the engine *)

(** ** Invariants of every run *)

Lemma node_shape_refl nd : node_shape nd nd.
Proof. by destruct nd. Qed.

Lemma node_shape_trans nd1 nd2 nd3 :
  node_shape nd1 nd2 -> node_shape nd2 nd3 -> node_shape nd1 nd3.
Proof.
  destruct nd1, nd2, nd3; simpl; try done; intuition congruence.
Qed.

Lemma shape_refl ns : shape ns ns.
Proof. split; [done|]. intros r nd H. exists nd. split; [done|apply node_shape_refl]. Qed.

Lemma shape_trans ns1 ns2 ns3 : shape ns1 ns2 -> shape ns2 ns3 -> shape ns1 ns3.
Proof.
  intros [L1 H1] [L2 H2]. split; [congruence|].
  intros r nd H. destruct (H1 r nd H) as (nd2 & E2 & S2).
  destruct (H2 r nd2 E2) as (nd3 & E3 & S3).
  exists nd3. split; [done|by eapply node_shape_trans].
Qed.

Lemma shape_insert ns r nd nd' :
  ns !! r = Some nd -> node_shape nd nd' -> shape ns (<[r := nd']> ns).
Proof.
  intros Hr Hs. split; [by rewrite length_insert|].
  intros r' nd0 H. destruct (decide (r = r')) as [<-|Hne].
  - exists nd'. rewrite list_lookup_insert_eq by by eapply lookup_lt_Some.
    split; [done|congruence].
  - exists nd0. rewrite list_lookup_insert_ne by done.
    split; [done|apply node_shape_refl].
Qed.

Lemma shape_set_cell_value r v s : shape (nodes s) (nodes (set_cell_value r v s)).
Proof.
  unfold set_cell_value. simpl.
  destruct (nodes s !! r) as [[c|d]|] eqn:E; try apply shape_refl.
  by eapply shape_insert.
Qed.

Lemma shape_set_isDirty r b s : shape (nodes s) (nodes (set_isDirty r b s)).
Proof.
  unfold set_isDirty. simpl.
  destruct (nodes s !! r) as [[c|d]|] eqn:E; try apply shape_refl.
  by eapply shape_insert.
Qed.

Lemma shape_set_derived_value r u s :
  shape (nodes s) (nodes (set_derived_value r u s)).
Proof.
  unfold set_derived_value. simpl.
  destruct (nodes s !! r) as [[c|d]|] eqn:E; try apply shape_refl.
  by eapply shape_insert.
Qed.

Lemma shape_subscribed ns ns' r cb :
  shape ns ns' -> subscribed r cb ns -> subscribed r cb ns'.
Proof.
  intros [_ H] Hs. unfold subscribed in *.
  destruct (ns !! r) as [nd|] eqn:E; [|done].
  destruct (H r nd E) as (nd' & -> & Hn).
  destruct nd, nd'; simpl in Hn; try done.
  - destruct Hn as [<- _]. done.
  - destruct Hn as [<- _]. done.
Qed.

Section Keeping.
Variable Q : state -> state -> Prop.
Hypothesis Q_refl : forall s, Q s s.
Hypothesis Q_trans :
  forall s1 s2 s3,
    shape (nodes s1) (nodes s2) -> shape (nodes s2) (nodes s3) ->
    Q s1 s2 -> Q s2 s3 -> Q s1 s3.
Hypothesis Q_track : forall r s, Q s (track r s).
Hypothesis Q_push : forall v s, Q s (push_log v s).
Hypothesis Q_computed : forall r s, Q s (emit (Computed r) s).
Hypothesis Q_notified :
  forall r cb v s, subscribed r cb (nodes s) ->
                   Q s (emit (Notified (cb_id cb) v) s).
Hypothesis Q_set_cell_value : forall r v s, Q s (set_cell_value r v s).
Hypothesis Q_set_isDirty : forall r b s, Q s (set_isDirty r b s).
Hypothesis Q_set_derived_value : forall r u s, Q s (set_derived_value r u s).
Hypothesis Q_leave :
  forall r s s',
    shape (nodes s) (nodes s') -> Q (enter r s) s' ->
    Q s (set_currentComputation (currentComputation s) s').

Lemma kept_refl {A} (a : A) s : kept Q s (Ok a s).
Proof. split; [apply shape_refl|apply Q_refl]. Qed.

Lemma kept_throw {A} e s : kept Q s (@Throw A e s).
Proof. split; [apply shape_refl|apply Q_refl]. Qed.

Lemma kept_step {A} s s1 (m : result A) :
  shape (nodes s) (nodes s1) -> Q s s1 -> kept Q s1 m -> kept Q s m.
Proof.
  intros Hs HQ Hm. destruct m as [a s2|e s2|]; simpl in *; try done;
    destruct Hm as [Hs2 HQ2]; (split; [by eapply shape_trans|by eapply Q_trans]).
Qed.

Lemma kept_bind {A B} s (m : result A) (k : A -> state -> result B) :
  kept Q s m ->
  (forall a s1, shape (nodes s) (nodes s1) -> kept Q s1 (k a s1)) ->
  kept Q s (bind m k).
Proof.
  intros Hm Hk. destruct m as [a s1|e s1|]; simpl in *; [|done|done].
  destruct Hm as [Hs HQ]. apply (kept_step s s1); [done|done|by apply Hk].
Qed.

Lemma kept_forEach {A B} (f : A -> state -> result B) xs :
  forall s,
    (forall x s1, x ∈ xs -> shape (nodes s) (nodes s1) -> kept Q s1 (f x s1)) ->
    kept Q s (forEach f xs s).
Proof.
  induction xs as [|x xs IH]; intros s Hf; simpl.
  - (split; [apply shape_refl|apply Q_refl]).
  - apply kept_bind.
    + apply Hf; [by left|apply shape_refl].
    + intros _ s1 Hs1. apply IH. intros y s2 Hy Hs2.
      apply Hf; [by right|by eapply shape_trans].
Qed.

Lemma engine_kept n :
  (forall p s, kept Q s (run n p s)) /\
  (forall r s, kept Q s (value n r s)) /\
  (forall r s, kept Q s (compute n r s)) /\
  (forall r s, kept Q s (update n r s)) /\
  (forall r a s, kept Q s (setValue n r a s)).
Proof.
  induction n as [|n (IHrun & IHvalue & IHcompute & IHupdate & IHset)].
  { by repeat split. }
  assert (Hcompute : forall r s, kept Q s (compute (S n) r s)).
  { intros r s. rewrite compute_S.
    destruct (nodes s !! r) as [[c|d]|] eqn:E; try (split; [apply shape_refl|apply Q_refl]).
    destruct (d_isDirty d); [|(split; [apply shape_refl|apply Q_refl])].
    apply kept_bind.
    - pose proof (IHvalue (d_dependency d) (enter r s)) as Hv.
      destruct (value n (d_dependency d) (enter r s)) as [v s2|e s2|];
        cbn [bind finally]; [| |done].
      + destruct Hv as [Hs2 HQ2].
        pose proof (IHrun (d_fn d v) (emit (Computed r) s2)) as Hr.
        destruct (run n (d_fn d v) (emit (Computed r) s2)) as [u s3|e s3|];
          cbn [bind finally]; [| |done].
        * destruct Hr as [Hs3 HQ3].
          assert (H13 : shape (nodes s) (nodes s3))
            by (eapply shape_trans; [exact Hs2|exact Hs3]).
          assert (HQ13 : Q (enter r s) s3).
          { apply (Q_trans _ (emit (Computed r) s2) _); [exact Hs2|exact Hs3| |exact HQ3].
            apply (Q_trans _ s2 _); [exact Hs2|apply shape_refl|exact HQ2|].
            apply Q_computed. }
          set (s4 := set_isDirty r false (set_derived_value r u s3)).
          assert (H34 : shape (nodes s3) (nodes s4)).
          { eapply shape_trans; [apply shape_set_derived_value|apply shape_set_isDirty]. }
          split; [by eapply shape_trans|].
          apply (Q_leave r); [by eapply shape_trans|].
          apply (Q_trans _ s3 _); [exact H13|exact H34|exact HQ13|].
          apply (Q_trans _ (set_derived_value r u s3) _);
            [apply shape_set_derived_value|apply shape_set_isDirty
            |apply Q_set_derived_value|apply Q_set_isDirty].
        * destruct Hr as [Hs3 HQ3].
          assert (H13 : shape (nodes s) (nodes s3))
            by (eapply shape_trans; [exact Hs2|exact Hs3]).
          split; [done|]. apply (Q_leave r); [done|].
          apply (Q_trans _ (emit (Computed r) s2) _); [exact Hs2|exact Hs3| |exact HQ3].
          apply (Q_trans _ s2 _); [exact Hs2|apply shape_refl|exact HQ2|].
          apply Q_computed.
      + destruct Hv as [Hs2 HQ2]. split; [done|]. by apply (Q_leave r).
    - intros _ s4 _. destruct (nodes s4 !! r) as [[c4|d4]|];
        [(split; [apply shape_refl|apply Q_refl])|(split; [apply shape_refl|apply Q_refl])|(split; [apply shape_refl|apply Q_refl])]. }
  repeat split.
  - intros p s. rewrite run_S. destruct p.
    + (split; [apply shape_refl|apply Q_refl]).
    + apply kept_bind; [apply IHvalue|intros; apply IHrun].
    + apply kept_bind; [apply IHset|intros; apply IHrun].
    + apply kept_bind; [apply IHset|intros; apply IHrun].
    + apply (kept_step s (push_log v s)); [apply shape_refl|apply Q_push|apply IHrun].
    + (split; [apply shape_refl|apply Q_refl]).
  - intros r s. rewrite value_S.
    destruct (nodes s !! r) as [[c|d]|].
    + split; [apply shape_refl|apply Q_track].
    + apply IHcompute.
    + (split; [apply shape_refl|apply Q_refl]).
  - exact Hcompute.
  - intros r s. rewrite update_S.
    destruct (nodes s !! r) as [[c|d]|] eqn:E; try (split; [apply shape_refl|apply Q_refl]).
    apply (kept_step s (set_isDirty r true s));
      [apply shape_set_isDirty|apply Q_set_isDirty|].
    apply kept_bind; [apply IHcompute|].
    intros v s2 Hs2. destruct (strict_neq v (d_currentValue d)); [|(split; [apply shape_refl|apply Q_refl])].
    destruct (nodes s2 !! r) as [[c2|d2]|] eqn:E2;
      [(split; [apply shape_refl|apply Q_refl])| |(split; [apply shape_refl|apply Q_refl])].
    apply kept_forEach. intros cb s3 Hcb Hs3.
    apply (kept_step s3 (emit (Notified (cb_id cb) v) s3));
      [apply shape_refl| |apply IHrun].
    apply (Q_notified r). apply (shape_subscribed _ _ _ _ Hs3).
    unfold subscribed. by rewrite E2.
  - intros r a s. rewrite setValue_S.
    destruct (nodes s !! r) as [[c|d]|] eqn:E; try (split; [apply shape_refl|apply Q_refl]).
    apply kept_bind.
    { destruct a; [(split; [apply shape_refl|apply Q_refl])|apply IHrun]. }
    intros v s1 Hs1. destruct (nodes s1 !! r) as [[c1|d1]|] eqn:E1;
      try (split; [apply shape_refl|apply Q_refl]).
    destruct (strict_neq v (c_currentValue c1)); [|(split; [apply shape_refl|apply Q_refl])].
    apply (kept_step s1 (set_cell_value r v s1));
      [apply shape_set_cell_value|apply Q_set_cell_value|].
    apply kept_bind.
    + apply kept_forEach. intros cb s2 Hcb Hs2.
      destruct (nodes s2 !! r) as [[c2|d2]|] eqn:E2; try (split; [apply shape_refl|apply Q_refl]).
      apply (kept_step s2 (emit (Notified (cb_id cb) (c_currentValue c2)) s2));
        [apply shape_refl| |apply IHrun].
      apply (Q_notified r). apply (shape_subscribed _ _ _ _ Hs2).
      apply (shape_subscribed _ _ _ _ (shape_set_cell_value r v s1)).
      unfold subscribed. by rewrite E1.
    + intros _ s3 Hs3. destruct (nodes s3 !! r) as [[c3|d3]|];
        try (split; [apply shape_refl|apply Q_refl]).
      apply kept_forEach. intros d s4 _ _. apply IHupdate.
Qed.
End Keeping.

Lemma notified_by_app i t t' : notified_by i (t ++ t') = notified_by i t ++ notified_by i t'.
Proof. unfold notified_by. apply List.filter_app. Qed.

Lemma graph_grows_refl g : graph_grows g g.
Proof. intros k l H. exists []. by rewrite app_nil_r. Qed.

Lemma graph_grows_trans g1 g2 g3 :
  graph_grows g1 g2 -> graph_grows g2 g3 -> graph_grows g1 g3.
Proof.
  intros H1 H2 k l H. destruct (H1 k l H) as (l1 & E1).
  destruct (H2 k _ E1) as (l2 & E2). exists (l1 ++ l2). by rewrite app_assoc.
Qed.

Lemma kept_after {A} (Q : state -> state -> Prop) s (m : result A) :
  kept Q s m -> after (fun s' => shape (nodes s) (nodes s')) m /\ after (Q s) m.
Proof. destruct m; simpl; tauto. Qed.

Lemma structure_kept n :
  (forall p s, kept Qtrue s (run n p s)) /\
  (forall r s, kept Qtrue s (value n r s)) /\
  (forall r s, kept Qtrue s (compute n r s)) /\
  (forall r s, kept Qtrue s (update n r s)) /\
  (forall r a s, kept Qtrue s (setValue n r a s)).
Proof. apply engine_kept; unfold Qtrue; auto. Qed.

Lemma context_kept n :
  (forall r s, kept Qcc s (value n r s)) /\
  (forall r a s, kept Qcc s (setValue n r a s)).
Proof.
  assert (H : (forall p s, kept Qcc s (run n p s)) /\
              (forall r s, kept Qcc s (value n r s)) /\
              (forall r s, kept Qcc s (compute n r s)) /\
              (forall r s, kept Qcc s (update n r s)) /\
              (forall r a s, kept Qcc s (setValue n r a s))).
  { apply engine_kept; unfold Qcc; try done.
    intros s1 s2 s3 _ _ H1 H2. congruence. }
  tauto.
Qed.

Lemma graph_kept n :
  (forall r s, kept Qdg s (value n r s)) /\
  (forall r a s, kept Qdg s (setValue n r a s)).
Proof.
  assert (H : (forall p s, kept Qdg s (run n p s)) /\
              (forall r s, kept Qdg s (value n r s)) /\
              (forall r s, kept Qdg s (compute n r s)) /\
              (forall r s, kept Qdg s (update n r s)) /\
              (forall r a s, kept Qdg s (setValue n r a s))).
  { apply engine_kept; unfold Qdg; try (intros; apply graph_grows_refl).
    - intros s1 s2 s3 _ _. apply graph_grows_trans.
    - intros r0 s0. unfold track. simpl.
      destruct (currentComputation s0) as [c|]; [|apply graph_grows_refl].
      intros k l Hk. unfold dg_add. destruct (decide (comp_obj c = k)) as [<-|Hne].
      + exists [r0]. by rewrite lookup_insert_eq, Hk.
      + exists []. by rewrite lookup_insert_ne, app_nil_r.
    - intros r0 s0 s' _ H. exact H. }
  tauto.
Qed.

Lemma unsubscribed_shape i ns ns' :
  shape ns ns' -> unsubscribed i ns -> unsubscribed i ns'.
Proof.
  intros [Hl H] Hu r cb Hs. apply (Hu r cb).
  unfold subscribed in *.
  destruct (ns' !! r) as [nd'|] eqn:E'; [|done].
  assert (Hlt : (r < length ns)%nat) by (rewrite Hl; by eapply lookup_lt_Some).
  destruct (lookup_lt_is_Some_2 _ _ Hlt) as [nd E]. rewrite E.
  destruct (H r nd E) as (nd2 & E2 & Hn). rewrite E' in E2. injection E2 as <-.
  destruct nd, nd'; simpl in Hn; try done.
  - destruct Hn as [-> _]. done.
  - destruct Hn as [-> _]. done.
Qed.

Lemma subscription_kept n i :
  (forall r s, kept (Qsub i) s (value n r s)) /\
  (forall r a s, kept (Qsub i) s (setValue n r a s)).
Proof.
  assert (H : (forall p s, kept (Qsub i) s (run n p s)) /\
              (forall r s, kept (Qsub i) s (value n r s)) /\
              (forall r s, kept (Qsub i) s (compute n r s)) /\
              (forall r s, kept (Qsub i) s (update n r s)) /\
              (forall r a s, kept (Qsub i) s (setValue n r a s))).
  { apply engine_kept; unfold Qsub; try done.
    - intros s1 s2 s3 H12 _ Q1 Q2 Hu. rewrite Q2, Q1; [done|done|].
      by eapply unsubscribed_shape.
    - intros r0 s0 _. simpl. rewrite notified_by_app. simpl. by rewrite app_nil_r.
    - intros r0 cb v s0 Hsub Hu. simpl. rewrite notified_by_app. simpl.
      destruct (Nat.eqb_spec (cb_id cb) i) as [Heq|_]; [|by rewrite app_nil_r].
      by destruct (Hu r0 cb Hsub). }
  tauto.
Qed.

(** ** Reads, writes and subscriptions *)

(** X1. Reads and writes never re-wire the graph.  When [setValue] or
    [value] finishes, by returning or by throwing, the heap holds the
    same objects as before, each with the same subscribers, the same
    [derivedStates], the same function and the same dependency: only
    [currentValue] and [isDirty] can have changed.  (Callbacks read,
    write, log and throw.) *)
Theorem propagation_keeps_structure (n : nat) (r : ref) (a : setArg) (s : state) :
  after (fun s' => shape (nodes s) (nodes s')) (setValue n r a s) /\
  after (fun s' => shape (nodes s) (nodes s')) (value n r s).
Proof.
  destruct (structure_kept n) as (_ & Hv & _ & _ & Hs). split.
  - exact (proj1 (kept_after _ _ _ (Hs r a s))).
  - exact (proj1 (kept_after _ _ _ (Hv r s))).
Qed.

(** X2. [currentComputation] is restored.  When [setValue] or [value]
    finishes, by returning or by throwing, [currentComputation] is what
    it was before the call: the [finally] block of [compute] undoes every
    assignment, also when the function of a derived state throws. *)
Theorem computation_context_restored (n : nat) (r : ref) (a : setArg) (s : state) :
  after (fun s' => currentComputation s' = currentComputation s) (setValue n r a s) /\
  after (fun s' => currentComputation s' = currentComputation s) (value n r s).
Proof.
  destruct (context_kept n) as [Hv Hs]. split.
  - exact (proj2 (kept_after _ _ _ (Hs r a s))).
  - exact (proj2 (kept_after _ _ _ (Hv r s))).
Qed.

(** X3. The dependency graph only grows.  When [setValue] or [value]
    finishes, every key of [dependencyGraph] is still there and its set
    has only gained elements: nothing in the engine deletes from the map
    or from one of its sets. *)
Theorem dependency_graph_only_grows (n : nat) (r : ref) (a : setArg) (s : state) :
  after (fun s' => graph_grows (dependencyGraph s) (dependencyGraph s'))
        (setValue n r a s) /\
  after (fun s' => graph_grows (dependencyGraph s) (dependencyGraph s'))
        (value n r s).
Proof.
  destruct (graph_kept n) as [Hv Hs]. split.
  - exact (proj2 (kept_after _ _ _ (Hs r a s))).
  - exact (proj2 (kept_after _ _ _ (Hv r s))).
Qed.

Lemma elem_of_set_delete cb i l : cb ∈ set_delete i l -> cb_id cb <> i.
Proof.
  unfold set_delete. rewrite list_elem_of_In, List.filter_In.
  intros [_ H]. apply negb_true_iff in H. by apply Nat.eqb_neq in H.
Qed.

(** X4. An unsubscribed callback is never called again.  After the
    function returned by [subscribe] has been called, and provided the
    function object is subscribed to no other state, no write,
    whatever it triggers, invokes that function object again. *)
Theorem disposed_never_notified
    (n : nat) (u : unsubscriber) (r : ref) (a : setArg) (s : state) :
  (forall r' cb, r' <> un_ref u -> subscribed r' cb (nodes s) ->
                 cb_id cb <> un_cb u) ->
  after (fun s' => notified_by (un_cb u) (trace s') = notified_by (un_cb u) (trace s))
        (setValue n r a (unsubscribe u s)).
Proof.
  intros Hother.
  assert (Hu : unsubscribed (un_cb u) (nodes (unsubscribe u s))).
  { intros r' cb Hsub. destruct (decide (r' = un_ref u)) as [->|Hne].
    - unfold subscribed, unsubscribe in Hsub.
      destruct (nodes s !! un_ref u) as [[c|d]|] eqn:E; simpl in Hsub.
      + rewrite list_lookup_insert_eq in Hsub by by eapply lookup_lt_Some.
        by eapply elem_of_set_delete.
      + rewrite list_lookup_insert_eq in Hsub by by eapply lookup_lt_Some.
        by eapply elem_of_set_delete.
      + by rewrite E in Hsub.
    - apply (Hother r' cb Hne). unfold subscribed, unsubscribe in *.
      destruct (nodes s !! un_ref u) as [[c|d]|] eqn:E; simpl in Hsub;
        try done; by rewrite list_lookup_insert_ne in Hsub. }
  assert (Ht : trace (unsubscribe u s) = trace s).
  { unfold unsubscribe. by destruct (nodes s !! un_ref u) as [[c|d]|]. }
  pose proof (proj2 (kept_after _ _ _ (proj2 (subscription_kept n (un_cb u)) r a (unsubscribe u s)))) as H.
  destruct (setValue n r a (unsubscribe u s)); simpl in *; try done;
    unfold Qsub in H; rewrite <- Ht; by apply H.
Qed.

Lemma disposed_never_notified_witness :
  after (fun s' => notified_by 0 (trace s') = notified_by 0 (trace subscribed_state))
        (setValue 10 0 (Plain (VNum 9))
                  (unsubscribe (mkUnsubscriber 0 0) subscribed_state)).
Proof.
  apply (disposed_never_notified 10 (mkUnsubscriber 0 0) 0%nat (Plain (VNum 9))
           subscribed_state).
  intros r' cb Hne Hsub. unfold subscribed in Hsub.
  destruct r' as [|[|r']]; [done| |]; vm_compute in Hsub.
  - by apply elem_of_nil in Hsub.
  - done.
Defined.


(** Reading twice *)
Lemma set_isDirty_lookup r b s d :
  nodes (set_isDirty r b s) !! r = Some (Derived d) -> d_isDirty d = b.
Proof.
  unfold set_isDirty. simpl. destruct (nodes s !! r) as [[c|d0]|] eqn:E.
  - by rewrite E.
  - rewrite list_lookup_insert_eq by by eapply lookup_lt_Some.
    by intros [= <-].
  - by rewrite E.
Qed.

(** X5. Reading is idempotent.  If [value] returns [v], then reading
    the same state again at once returns [v] again, and that second read
    changes nothing in the heap, in the log or in the trace: it invokes
    no function. *)
Theorem read_twice (n : nat) (r : ref) (s s' : state) (v : val) :
  value n r s = Ok v s' ->
  exists s'',
    value n r s' = Ok v s'' /\
    nodes s'' = nodes s' /\ log s'' = log s' /\ trace s'' = trace s'.
Proof.
  intros H. destruct n as [|n]; [done|]. rewrite value_S in H.
  destruct (nodes s !! r) as [[c|d]|] eqn:E; [| |done].
  - injection H as <- <-. exists (track r (track r s)).
    rewrite value_S. simpl. by rewrite E.
  - destruct n as [|n]; [done|]. rewrite compute_S, E in H.
    destruct (d_isDirty d) eqn:Hd.
    + destruct (value n (d_dependency d) (enter r s)) as [v0 s2|e s2|];
        cbn [bind finally] in H; try done.
      destruct (run n (d_fn d v0) (emit (Computed r) s2)) as [u s3|e s3|];
        cbn [bind finally] in H; try done.
      set (s4 := set_currentComputation (currentComputation s)
                   (set_isDirty r false (set_derived_value r u s3))) in *.
      destruct (nodes s4 !! r) as [[c4|d4]|] eqn:E4; try done.
      injection H as <- <-. exists s4.
      rewrite (value_clean _ _ _ d4); [done|done|].
      by apply (set_isDirty_lookup r false (set_derived_value r u s3)).
    + injection H as <- <-. exists s. by rewrite (value_clean _ _ _ d).
Qed.

Lemma read_twice_witness :
  exists s' s'',
    value 10 2 recovering_state = Ok (VNum 6) s' /\
    value 10 2 s' = Ok (VNum 6) s'' /\
    nodes s'' = nodes s' /\ log s'' = log s' /\ trace s'' = trace s'.
Proof.
  eexists.
  destruct (read_twice 10 2 recovering_state _ (VNum 6) eq_refl) as (s'' & H).
  exists s''. split; [reflexivity|exact H].
Defined.


(** Subscriptions *)

Lemma set_delete_set_add cb l :
  Forall (fun cb' => cb_id cb' <> cb_id cb) l ->
  set_delete (cb_id cb) (set_add cb l) = l.
Proof.
  intros H. unfold set_add.
  assert (Hex : existsb (fun cb' => Nat.eqb (cb_id cb') (cb_id cb)) l = false).
  { induction H as [|x l Hx Hl IH]; [done|]. simpl.
    rewrite IH, orb_false_r. by apply Nat.eqb_neq. }
  rewrite Hex. unfold set_delete. rewrite List.filter_app. simpl.
  rewrite Nat.eqb_refl. simpl. rewrite app_nil_r.
  induction H as [|x l Hx Hl IH]; [done|]. simpl.
  apply Nat.eqb_neq in Hx. rewrite Hx. simpl. f_equal. apply IH.
  simpl in Hex. rewrite Hx in Hex. done.
Qed.

Lemma set_add_twice cb l : set_add cb (set_add cb l) = set_add cb l.
Proof.
  unfold set_add at 2.
  destruct (existsb _ l) eqn:E.
  - unfold set_add. by rewrite E.
  - unfold set_add. rewrite existsb_app, E. simpl. by rewrite Nat.eqb_refl.
Qed.

(** X6. [subscribe] and the function it returns.  Subscribing to an
    existing state succeeds; subscribing the same function object again
    changes nothing; after the returned function has been called, no
    subscriber of that state is that function object; and if the
    function object was not subscribed before, the heap is exactly what
    it was before [subscribe]. *)
Theorem subscribe_unsubscribe
    (r : ref) (cb : callback) (s : state) (nd : node) :
  nodes s !! r = Some nd ->
  exists u s1,
    subscribe r cb s = Ok u s1 /\
    (exists u' s2, subscribe r cb s1 = Ok u' s2 /\ nodes s2 = nodes s1) /\
    (forall cb', subscribed r cb' (nodes (unsubscribe u s1)) ->
                 cb_id cb' <> cb_id cb) /\
    (Forall (fun cb' => cb_id cb' <> cb_id cb) (subscribers_of nd) ->
     nodes (unsubscribe u s1) = nodes s).
Proof.
  intros Hr. assert (Hlt : (r < length (nodes s))%nat) by by eapply lookup_lt_Some.
  unfold subscribe. rewrite Hr. destruct nd as [c|d].
  - eexists _, _. split; [reflexivity|]. simpl. repeat split.
    + unfold subscribe. simpl.
      rewrite list_lookup_insert_eq by done. simpl.
      eexists _, _. split; [reflexivity|]. simpl.
      by rewrite list_insert_insert_eq, set_add_twice.
    + intros cb'. unfold subscribed, unsubscribe. simpl.
      rewrite list_lookup_insert_eq by done. simpl.
      rewrite list_lookup_insert_eq by by rewrite length_insert.
      apply elem_of_set_delete.
    + intros Hfresh. unfold unsubscribe. simpl.
      rewrite list_lookup_insert_eq by done. simpl.
      rewrite list_insert_insert_eq, set_delete_set_add by done.
      apply list_insert_id. by destruct c.
  - eexists _, _. split; [reflexivity|]. simpl. repeat split.
    + unfold subscribe. simpl.
      rewrite list_lookup_insert_eq by done. simpl.
      eexists _, _. split; [reflexivity|]. simpl.
      by rewrite list_insert_insert_eq, set_add_twice.
    + intros cb'. unfold subscribed, unsubscribe. simpl.
      rewrite list_lookup_insert_eq by done. simpl.
      rewrite list_lookup_insert_eq by by rewrite length_insert.
      apply elem_of_set_delete.
    + intros Hfresh. unfold unsubscribe. simpl.
      rewrite list_lookup_insert_eq by done. simpl.
      rewrite list_insert_insert_eq, set_delete_set_add by done.
      apply list_insert_id. by destruct d.
Qed.

Lemma subscribe_unsubscribe_witness :
  exists u s1,
    subscribe 0 (mkCallback 5 logger) subscribed_state = Ok u s1 /\
    subscriber_ids 0 s1 = [0%nat; 5%nat] /\
    nodes (unsubscribe u s1) = nodes subscribed_state.
Proof.
  destruct (subscribe_unsubscribe 0 (mkCallback 5 logger) subscribed_state
              (Cell (mkCell (VNum 7) [mkCallback 0 logger] [1%nat])) eq_refl)
    as (u & s1 & H1 & _ & _ & H4).
  exists u, s1. split; [exact H1|]. split.
  - vm_compute in H1. injection H1 as <- <-. reflexivity.
  - apply H4. repeat constructor. simpl. lia.
Defined.

(** X7. A write notifies the subscribers first, in subscription order.
    A write of a different value to a cell whose subscribers only log
    stores the value, calls every subscriber once with the new value, in
    the order of subscription, and only then updates the derived states
    in the order of their creation. *)
Theorem write_notifies_in_order
    (n : nat) (r : ref) (v : val) (s : state) (c : cell) :
  nodes s !! r = Some (Cell c) ->
  v <> c_currentValue c ->
  Forall (silent n v) (c_subscribers c) ->
  exists s1,
    setValue (S (S n)) r (Plain v) s =
      forEach (fun d s' => update (S n) d s') (c_derivedStates c) s1 /\
    nodes s1 = <[r := Cell (mkCell v (c_subscribers c) (c_derivedStates c))]>
                 (nodes s) /\
    log s1 = log s ++ pushes_of v (c_subscribers c) /\
    trace s1 = trace s ++ notifications_of v (c_subscribers c).
Proof.
  apply setValue_silent.
Qed.

Lemma write_notifies_in_order_witness :
  exists s1,
    setValue 5 0 (Plain (VNum 3)) siblings_state =
      forEach (fun d s' => update 4 d s') [1%nat; 2%nat] s1 /\
    cell_value 0 s1 = Some (VNum 3) /\
    log s1 = [VNum 3] /\
    trace s1 = trace siblings_state ++ [Notified 0 (VNum 3)].
Proof.
  destruct (write_notifies_in_order 3 0 (VNum 3) siblings_state
              (mkCell (VNum 1) [mkCallback 0 logger] [1%nat; 2%nat]) eq_refl)
    as (s1 & H1 & H2 & H3 & H4).
  - done.
  - repeat constructor.
  - exists s1. split; [exact H1|]. split; [|split; [exact H3|exact H4]].
    unfold cell_value. by rewrite H2.
Defined.

(** X8. A throwing subscriber aborts the write half-way.  If a
    subscriber of a cell throws when called with the new value, and the
    subscribers before it only log, then [setValue] throws that error
    with the new value already stored and the earlier subscribers
    already called; the later subscribers are not called and no derived
    state is updated (nothing is computed). *)
Theorem throwing_subscriber_stops_write
    (n : nat) (r : ref) (v : val) (s : state) (c : cell)
    (cbs1 cbs2 : list callback) (cb : callback) (e : error) :
  nodes s !! r = Some (Cell c) ->
  v <> c_currentValue c ->
  c_subscribers c = cbs1 ++ cb :: cbs2 ->
  Forall (silent n v) cbs1 ->
  cb_body cb v = ThrowErr e ->
  exists s',
    setValue (S (S n)) r (Plain v) s = Throw e s' /\
    nodes s' = <[r := Cell (mkCell v (c_subscribers c) (c_derivedStates c))]>
                 (nodes s) /\
    log s' = log s ++ pushes_of v cbs1 /\
    trace s' = trace s ++ notifications_of v cbs1 ++ [Notified (cb_id cb) v].
Proof.
  intros Hr Hne Hsubs Hsil Hcb.
  set (c' := mkCell v (c_subscribers c) (c_derivedStates c)).
  set (s0 := set_cell_value r v s).
  assert (Hn0 : nodes s0 = <[r := Cell c']> (nodes s))
    by (unfold s0; by rewrite (nodes_set_cell_value _ _ _ _ Hr)).
  assert (Hr0 : nodes s0 !! r = Some (Cell c')).
  { rewrite Hn0. apply list_lookup_insert_eq. by eapply lookup_lt_Some. }
  destruct (notify_all_facts v cbs1 s0) as (Hn & Hl & Ht & _).
  exists (emit (Notified (cb_id cb) v) (notify_all v cbs1 s0)).
  split; [|simpl; rewrite Hn, Hl, Ht; simpl; by rewrite <- app_assoc].
  rewrite setValue_S, Hr. cbn [bind]. rewrite Hr, (strict_neq_diff _ _ Hne).
  fold s0. rewrite Hsubs, forEach_app.
  rewrite (forEach_silent_cell n r v _ Hsil s0 c' Hr0 eq_refl).
  cbn [bind forEach]. rewrite Hn, Hr0. simpl c_currentValue.
  by rewrite Hcb, run_S.
Qed.

Lemma throwing_subscriber_stops_write_witness :
  exists s',
    setValue 5 0 (Plain (VNum 1)) guarded_state = Throw boom s' /\
    cell_value 0 s' = Some (VNum 1) /\
    log s' = [VNum 1] /\
    trace s' = trace guarded_state ++ [Notified 0 (VNum 1); Notified 1 (VNum 1)].
Proof.
  destruct (throwing_subscriber_stops_write 3 0 (VNum 1) guarded_state
              (mkCell (VNum 0)
                 [mkCallback 0 logger; mkCallback 1 (fun _ => ThrowErr boom);
                  mkCallback 2 logger] [1%nat])
              [mkCallback 0 logger] [mkCallback 2 logger]
              (mkCallback 1 (fun _ => ThrowErr boom)) boom eq_refl)
    as (s' & H1 & H2 & H3 & H4).
  - done.
  - reflexivity.
  - repeat constructor.
  - reflexivity.
  - exists s'. split; [exact H1|]. split; [|split; [exact H3|exact H4]].
    unfold cell_value. by rewrite H2.
Defined.

(** X9. Subscribers of a derived state hear only of changes.  When a
    write to a cell updates a derived state whose function performs no
    engine operation, the function runs once and the new result is
    cached; the subscribers of the derived state, if they only log, are
    called once each, in order, with the new result when it differs
    from the previous cache, and not at all when it is equal. *)
Theorem derived_subscribers_short_circuit
    (n : nat) (a b : ref) (s : state) (x w v : val) (dirty : bool)
    (cbs : list callback) (g : val -> val) :
  nodes s !! a = Some (Cell (mkCell x [] [b])) ->
  nodes s !! b = Some (Derived (mkDerived w dirty cbs (pure g) a)) ->
  v <> x ->
  Forall (silent (S (S n)) (g v)) cbs ->
  exists s',
    setValue (S (S (S (S (S n))))) a (Plain v) s = Ok tt s' /\
    nodes s' = <[b := Derived (mkDerived (g v) false cbs (pure g) a)]>
                 (<[a := Cell (mkCell v [] [b])]> (nodes s)) /\
    log s' = log s ++ (if decide (g v = w) then [] else pushes_of (g v) cbs) /\
    trace s' = trace s ++ [Computed b] ++
               (if decide (g v = w) then [] else notifications_of (g v) cbs).
Proof.
  intros Ha Hb Hne Hsil.
  assert (Hab : a <> b) by congruence.
  assert (Hla : (a < length (nodes s))%nat) by by eapply lookup_lt_Some.
  assert (Hlb : (b < length (nodes s))%nat) by by eapply lookup_lt_Some.
  set (s2 := set_cell_value a v s).
  assert (Hn2 : nodes s2 = <[a := Cell (mkCell v [] [b])]> (nodes s))
    by (unfold s2; by rewrite (nodes_set_cell_value _ _ _ _ Ha)).
  assert (Ha2 : nodes s2 !! a = Some (Cell (mkCell v [] [b])))
    by (rewrite Hn2; by apply list_lookup_insert_eq).
  assert (Hb2 : nodes s2 !! b = Some (Derived (mkDerived w dirty cbs (pure g) a)))
    by (rewrite Hn2, list_lookup_insert_ne by done; done).
  set (s3 := set_isDirty b true s2).
  assert (Hn3 : nodes s3 = <[b := Derived (mkDerived w true cbs (pure g) a)]> (nodes s2))
    by (unfold s3; by rewrite (nodes_set_isDirty _ _ _ _ Hb2)).
  destruct (compute_pure n b s3 (mkDerived w true cbs (pure g) a) g v)
    as (s4 & Hc & Hn4 & Hl4 & Ht4).
  { rewrite Hn3. apply list_lookup_insert_eq. by rewrite Hn2, length_insert. }
  { done. }
  { done. }
  { unfold settled. cbn [d_dependency].
    rewrite Hn3, list_lookup_insert_ne by done. by rewrite Ha2. }
  cbn [d_subscribers d_dependency] in Hn4.
  rewrite Hn3, list_insert_insert_eq, Hn2 in Hn4.
  assert (Hb4 : nodes s4 !! b = Some (Derived (mkDerived (g v) false cbs (pure g) a))).
  { rewrite Hn4. apply list_lookup_insert_eq. by rewrite length_insert. }
  assert (Hstart : setValue (S (S (S (S (S n))))) a (Plain v) s =
            if strict_neq (g v) w
            then forEach (fun cb s' => run (S (S (S n))) (cb_body cb (g v))
                                           (emit (Notified (cb_id cb) (g v)) s'))
                         cbs s4
            else Ok tt s4).
  { rewrite setValue_S, Ha. cbn [bind]. rewrite Ha. simpl c_currentValue.
    rewrite (strict_neq_diff _ _ Hne). simpl c_subscribers.
    cbn [forEach bind]. fold s2. rewrite Ha2. simpl c_derivedStates.
    cbn [forEach]. rewrite update_S, Hb2. fold s3. rewrite Hc. cbn [bind].
    rewrite Hb4. simpl d_currentValue. simpl d_subscribers.
    destruct (strict_neq (g v) w); [|done].
    match goal with |- bind ?m _ = _ => by destruct m as [[] ?|? ?|] end. }
  rewrite Hstart. unfold strict_neq.
  destruct (decide (g v = w)) as [Heq|Hneq].
  - rewrite bool_decide_eq_true_2 by done. simpl. exists s4.
    split; [done|]. split; [done|]. rewrite Ht4, Hl4. by rewrite app_nil_r.
  - rewrite bool_decide_eq_false_2 by done. simpl.
    rewrite (forEach_silent _ _ _ Hsil).
    destruct (notify_all_facts (g v) cbs s4) as (Hn & Hl & Ht & _).
    eexists. split; [reflexivity|]. rewrite Hn, Hl, Ht, Ht4, Hl4.
    split; [done|]. split; [done|]. by rewrite <- app_assoc.
Qed.

Lemma derived_subscribers_short_circuit_witness :
  exists s',
    setValue 7 0 (Plain (VNum 2)) observed_state = Ok tt s' /\
    derived_cache 1 s' = Some (VNum 0, false) /\
    log s' = [] /\
    trace s' = trace observed_state ++ [Computed 1].
Proof.
  destruct (derived_subscribers_short_circuit 2 0 1 observed_state
              (VNum 1) (VNum 0) (VNum 2) false [mkCallback 1 logger]
              (lift (fun x => x * 0)) eq_refl eq_refl)
    as (s' & H1 & H2 & H3 & H4).
  - done.
  - repeat constructor.
  - exists s'. split; [exact H1|]. split; [|split; [exact H3|exact H4]].
    unfold derived_cache. by rewrite H2.
Defined.

(** X10. A derived state that fails starves its later siblings.  If the
    function of the first derived state of a cell throws on the new
    value, [setValue] throws that error after the cell's subscribers
    have been called; the failing state is left dirty with its old
    cache, and every derived state registered after it is left
    untouched, not even marked dirty. *)
Theorem failed_update_skips_siblings
    (n : nat) (a b : ref) (rest : list ref) (s : state) (x v : val)
    (cbs : list callback) (d : derived) (e : error) :
  nodes s !! a = Some (Cell (mkCell x cbs (b :: rest))) ->
  nodes s !! b = Some (Derived d) ->
  d_dependency d = a ->
  d_fn d v = ThrowErr e ->
  v <> x ->
  Forall (silent (S (S n)) v) cbs ->
  exists s',
    setValue (S (S (S (S n)))) a (Plain v) s = Throw e s' /\
    nodes s' = <[b := Derived (mkDerived (d_currentValue d) true
                                         (d_subscribers d) (d_fn d) a)]>
                 (<[a := Cell (mkCell v cbs (b :: rest))]> (nodes s)) /\
    trace s' = trace s ++ notifications_of v cbs ++ [Computed b].
Proof.
  intros Ha Hb Hdep Hfn Hne Hsil.
  assert (Hab : a <> b) by congruence.
  assert (Hla : (a < length (nodes s))%nat) by by eapply lookup_lt_Some.
  assert (Hlb : (b < length (nodes s))%nat) by by eapply lookup_lt_Some.
  destruct (setValue_silent (S (S n)) a v s _ Ha Hne Hsil)
    as (s1 & Hset & Hn1 & _ & Ht1).
  cbn [c_subscribers c_derivedStates] in Hset, Hn1, Ht1.
  assert (Ha1 : nodes s1 !! a = Some (Cell (mkCell v cbs (b :: rest))))
    by (rewrite Hn1; by apply list_lookup_insert_eq).
  assert (Hb1 : nodes s1 !! b = Some (Derived d))
    by (rewrite Hn1, list_lookup_insert_ne by done; done).
  set (s2 := set_isDirty b true s1).
  assert (Hn2 : nodes s2 = <[b := Derived (mkDerived (d_currentValue d) true
                               (d_subscribers d) (d_fn d) (d_dependency d))]> (nodes s1))
    by (unfold s2; by rewrite (nodes_set_isDirty _ _ _ _ Hb1)).
  assert (Hb2 : nodes s2 !! b = Some (Derived (mkDerived (d_currentValue d) true
                               (d_subscribers d) (d_fn d) (d_dependency d)))).
  { rewrite Hn2. apply list_lookup_insert_eq. by rewrite Hn1, length_insert. }
  assert (Ha2 : nodes s2 !! a = Some (Cell (mkCell v cbs (b :: rest))))
    by (rewrite Hn2, list_lookup_insert_ne by done; done).
  eexists. split.
  - rewrite Hset. cbn [forEach]. rewrite update_S, Hb1. fold s2.
    rewrite compute_S, Hb2. cbn [d_isDirty d_dependency d_fn].
    rewrite Hdep, (value_cell _ _ (enter b s2) _ Ha2). cbn [bind c_currentValue].
    rewrite Hfn, run_S. cbn [bind finally]. reflexivity.
  - simpl. rewrite Hb1, Hn1, Ht1, Hdep. split; [done|]. by rewrite <- app_assoc.
Qed.

Lemma failed_update_skips_siblings_witness :
  exists s',
    setValue 6 0 (Plain (VNum 2)) siblings_state = Throw boom s' /\
    derived_cache 1 s' = Some (VNum 1, true) /\
    derived_cache 2 s' = derived_cache 2 siblings_state /\
    trace s' = trace siblings_state ++ [Notified 0 (VNum 2); Computed 1].
Proof.
  destruct (failed_update_skips_siblings 2 0 1 [2%nat] siblings_state
              (VNum 1) (VNum 2) [mkCallback 0 logger]
              (mkDerived (VNum 1) false [] rejecting 0) boom
              eq_refl eq_refl eq_refl eq_refl)
    as (s' & H1 & H2 & H3).
  - done.
  - repeat constructor.
  - exists s'. split; [exact H1|]. split; [|split; [|exact H3]];
      unfold derived_cache; by rewrite H2.
Defined.

(** X11. A failed [derive] registers nothing.  If the function throws
    on the current value of the cell, [derive] throws that error out of
    the initial [compute()], having run the function once; every object
    that existed is unchanged, so the cell's [derivedStates] does not
    contain the new state. *)
Theorem failed_derive_registers_nothing
    (n : nat) (a : ref) (fn : val -> body) (s : state) (c : cell) (e : error) :
  nodes s !! a = Some (Cell c) ->
  fn (c_currentValue c) = ThrowErr e ->
  exists s',
    derive (S (S (S n))) a fn s = Throw e s' /\
    (forall r nd, nodes s !! r = Some nd -> nodes s' !! r = Some nd) /\
    trace s' = trace s ++ [Computed (length (nodes s))].
Proof.
  intros Ha Hfn. unfold derive, createDerivedState, alloc. rewrite Ha.
  set (D := mkDerived VUndefined true [] fn a).
  set (s1 := set_nodes (fun ns => ns ++ [Derived D]) s).
  assert (Hr1 : nodes s1 !! length (nodes s) = Some (Derived D)) by apply lookup_alloc.
  assert (Ha1 : nodes s1 !! a = Some (Cell c)) by by apply lookup_app_l_Some.
  eexists. split.
  - rewrite compute_S, Hr1. cbn [d_isDirty D d_dependency d_fn].
    rewrite (value_cell _ _ (enter (length (nodes s)) s1) _ Ha1). cbn [bind].
    rewrite Hfn, run_S. cbn [bind finally]. reflexivity.
  - simpl. split; [|done]. intros r nd H. by apply lookup_app_l_Some.
Qed.

Lemma failed_derive_registers_nothing_witness :
  exists s',
    derive 3 0 rejecting (snd (createReactiveState (VNum 2) init)) = Throw boom s' /\
    nodes s' !! 0%nat = Some (Cell (mkCell (VNum 2) [] [])) /\
    trace s' = [Computed 1].
Proof.
  destruct (failed_derive_registers_nothing 0 0 rejecting
              (snd (createReactiveState (VNum 2) init))
              (mkCell (VNum 2) [] []) boom eq_refl eq_refl)
    as (s' & H1 & H2 & H3).
  exists s'. split; [exact H1|]. split; [|exact H3]. by apply H2.
Defined.


Lemma observable_value n r s s' :
  observable s s' -> rsim observable (value n r s) (value n r s').
Proof.
  apply (engine_sim observable); unfold observable; simpl; intros; intuition congruence.
Qed.

(** X13. The dependency graph is never consulted.  Replacing
    [dependencyGraph] by any other map before a [setValue] or a [value]
    changes nothing that can be observed: the same outcome (result,
    error or exhaustion), the same heap, the same log and the same
    trace of invocations. *)
Theorem dependency_graph_unused
    (n : nat) (r : ref) (a : setArg) (g : gmap nat (list ref)) (s : state) :
  rsim observable (setValue n r a (set_dependencyGraph g s)) (setValue n r a s) /\
  rsim observable (value n r (set_dependencyGraph g s)) (value n r s).
Proof.
  split; [apply observable_sim|apply observable_value]; by unfold observable.
Qed.

(** Private cells of createComputed and createReactiveEffect *)

Lemma compute_settles n r s v s' :
  compute n r s = Ok v s' ->
  exists d', nodes s' !! r = Some (Derived d') /\
             d_isDirty d' = false /\ d_currentValue d' = v.
Proof.
  intros H. destruct n as [|n]; [done|]. rewrite compute_S in H.
  destruct (nodes s !! r) as [[c|d]|] eqn:E; try done.
  destruct (d_isDirty d) eqn:Hd.
  - destruct (value n (d_dependency d) (enter r s)) as [v0 s2|e s2|];
      cbn [bind finally] in H; try done.
    destruct (run n (d_fn d v0) (emit (Computed r) s2)) as [u s3|e s3|];
      cbn [bind finally] in H; try done.
    set (s4 := set_currentComputation (currentComputation s)
                 (set_isDirty r false (set_derived_value r u s3))) in *.
    destruct (nodes s4 !! r) as [[c4|d4]|] eqn:E4; try done.
    injection H as <- <-. exists d4. split; [done|]. split; [|done].
    by apply (set_isDirty_lookup r false (set_derived_value r u s3)).
  - injection H as <- <-. by exists d.
Qed.

Lemma shape_app ns l : forall r nd, ns !! r = Some nd ->
  exists nd', (ns ++ l) !! r = Some nd' /\ node_shape nd nd'.
Proof.
  intros r nd H. exists nd. split; [by apply lookup_app_l_Some|apply node_shape_refl].
Qed.

(** X14. [createComputed] derives from a private cell.  When
    [createComputed] returns, it has created two objects: a dummy cell
    with no subscriber whose only derived state is the one returned, and
    that derived state, clean, with the dummy as its dependency; the
    objects that existed keep their subscribers, derived states,
    functions and dependencies, so no existing state knows of the
    computed one. *)
Theorem computed_is_private
    (n : nat) (fn : body) (s s' : state) (d : ref) :
  createComputed n fn s = Ok d s' ->
  d = S (length (nodes s)) /\
  (exists v, nodes s' !! length (nodes s) = Some (Cell (mkCell v [] [d]))) /\
  (exists w, nodes s' !! d =
             Some (Derived (mkDerived w false [] (fun _ => fn) (length (nodes s))))) /\
  (forall r nd, nodes s !! r = Some nd ->
     exists nd', nodes s' !! r = Some nd' /\ node_shape nd nd').
Proof.
  unfold createComputed, createReactiveState, alloc.
  set (L := length (nodes s)).
  set (s1 := set_nodes (fun ns => ns ++ [Cell (mkCell VNull [] [])]) s).
  assert (HL1 : nodes s1 !! L = Some (Cell (mkCell VNull [] []))) by apply lookup_alloc.
  unfold derive. rewrite HL1. unfold createDerivedState, alloc.
  assert (Hlen1 : length (nodes s1) = S L) by (simpl; rewrite length_app; simpl; lia).
  rewrite Hlen1.
  set (D := mkDerived VUndefined true [] (fun _ => fn) L).
  set (s2 := set_nodes (fun ns => ns ++ [Derived D]) s1).
  assert (Hd2 : nodes s2 !! S L = Some (Derived D)).
  { simpl. rewrite <- Hlen1. apply lookup_alloc. }
  assert (HL2 : nodes s2 !! L = Some (Cell (mkCell VNull [] [])))
    by by apply lookup_app_l_Some.
  intros H.
  destruct (compute n (S L) s2) as [v s3|e s3|] eqn:Ec; cbn [bind] in H; try done.
  injection H as <- <-.
  destruct (compute_settles _ _ _ _ _ Ec) as (d3 & Hd3 & Hclean & Hval).
  pose proof (proj1 (proj2 (proj2 (structure_kept n))) (S L) s2) as Hk.
  rewrite Ec in Hk. destruct Hk as [[Hlen Hshape] _].
  destruct (Hshape _ _ HL2) as (ndL & HL3 & HsL).
  destruct ndL as [cL|]; [|done]. destruct HsL as [HsubL HderL]. simpl in HsubL, HderL.
  destruct (Hshape _ _ Hd2) as (ndd & Hd3' & Hsd). rewrite Hd3 in Hd3'.
  injection Hd3' as <-. destruct Hsd as (Hsub & Hfn & Hdep). simpl in Hsub, Hfn, Hdep.
  assert (HltL : (L < length (nodes s3))%nat) by by eapply lookup_lt_Some.
  assert (Hn' : nodes (add_derivedState L (S L) s3) =
                <[L := Cell (mkCell (c_currentValue cL) [] [S L])]> (nodes s3)).
  { unfold add_derivedState. simpl. by rewrite HL3, <- HsubL, <- HderL. }
  split; [done|]. rewrite Hn'. repeat split.
  - eexists. by apply list_lookup_insert_eq.
  - exists (d_currentValue d3). rewrite list_lookup_insert_ne by lia.
    rewrite Hd3. do 2 f_equal. destruct d3; simpl in *. congruence.
  - intros r nd Hr.
    assert (r < L)%nat by by eapply lookup_lt_Some.
    assert (Hr2 : nodes s2 !! r = Some nd).
    { simpl. apply lookup_app_l_Some. by apply lookup_app_l_Some. }
    destruct (Hshape _ _ Hr2) as (nd' & Hr3 & Hs').
    exists nd'. rewrite list_lookup_insert_ne by lia. done.
Qed.

Lemma computed_is_private_witness :
  exists d s',
    createComputed 5 (Value 1 Return) subscribed_state = Ok d s' /\
    d = 3%nat /\
    (exists v, nodes s' !! 2%nat = Some (Cell (mkCell v [] [d]))) /\
    subscriber_ids 0 s' = subscriber_ids 0 subscribed_state.
Proof.
  destruct (createComputed 5 (Value 1 Return) subscribed_state) as [d s'| |] eqn:E;
    [|by vm_compute in E..].
  exists d, s'. split; [reflexivity|].
  destruct (computed_is_private 5 (Value 1 Return) subscribed_state s' d E)
    as (H1 & H2 & _ & H4).
  split; [exact H1|]. split; [exact H2|].
  destruct (H4 0%nat _ eq_refl) as (nd' & E' & Hs).
  unfold subscriber_ids. rewrite E'.
  destruct nd' as [c'|]; [|done]. destruct Hs as [Hs _]. simpl in Hs. by rewrite <- Hs.
Defined.

(** X15. [createReactiveEffect] subscribes to a private cell.  When
    [createReactiveEffect] returns, it has created one dummy cell whose
    only subscriber is the new function object wrapping [fn] and which
    has no derived state; the function returned removes that one
    subscription; the objects that existed keep their subscribers and
    derived states, so the effect is subscribed to nothing it read. *)
Theorem effect_is_private
    (n : nat) (fn : body) (s s' : state) (u : unsubscriber) :
  createReactiveEffect n fn s = Ok u s' ->
  u = mkUnsubscriber (length (nodes s)) (next_obj s) /\
  (exists v, nodes s' !! length (nodes s) =
             Some (Cell (mkCell v [mkCallback (next_obj s) (fun _ => fn)] []))) /\
  (forall r nd, nodes s !! r = Some nd ->
     exists nd', nodes s' !! r = Some nd' /\ node_shape nd nd').
Proof.
  unfold createReactiveEffect, createReactiveState, alloc, newCallback.
  set (L := length (nodes s)).
  set (s1 := set_nodes (fun ns => ns ++ [Cell (mkCell VNull [] [])]) s).
  assert (HL1 : nodes (fresh_obj s1) !! L = Some (Cell (mkCell VNull [] [])))
    by apply lookup_alloc.
  unfold subscribe. rewrite HL1. cbn [bind]. simpl cb_id. simpl next_obj.
  set (cb := mkCallback (next_obj s) (fun _ => fn)).
  set (s3 := set_nodes _ (fresh_obj s1)).
  intros H.
  destruct (run n fn s3) as [v s4|e s4|] eqn:Er; cbn [bind] in H; try done.
  injection H as <- <-. split; [done|].
  pose proof (proj1 (structure_kept n) fn s3) as Hk.
  rewrite Er in Hk. destruct Hk as [[Hlen Hshape] _].
  assert (HL3 : nodes s3 !! L = Some (Cell (mkCell VNull (set_add cb []) []))).
  { unfold s3. simpl. apply list_lookup_insert_eq. rewrite length_app. simpl.
    unfold L. lia. }
  split.
  - destruct (Hshape _ _ HL3) as (nd' & HL4 & Hs).
    destruct nd' as [c4|]; [|done]. destruct Hs as [Hsub Hder].
    simpl in Hsub, Hder. exists (c_currentValue c4). rewrite HL4.
    destruct c4; simpl in *. by rewrite <- Hsub, <- Hder.
  - intros r nd Hr. assert (r < L)%nat by by eapply lookup_lt_Some.
    apply Hshape. unfold s3. simpl.
    rewrite list_lookup_insert_ne by lia. by apply lookup_app_l_Some.
Qed.

Lemma effect_is_private_witness :
  exists u s',
    createReactiveEffect 5 (logValue 0) subscribed_state = Ok u s' /\
    u = mkUnsubscriber 2 2 /\
    subscriber_ids 2 s' = [2%nat] /\
    subscriber_ids 0 s' = subscriber_ids 0 subscribed_state.
Proof.
  destruct (createReactiveEffect 5 (logValue 0) subscribed_state) as [u s'| |] eqn:E;
    [|by vm_compute in E..].
  exists u, s'. split; [reflexivity|].
  destruct (effect_is_private 5 (logValue 0) subscribed_state s' u E)
    as (H1 & (v & H2) & H3).
  split; [exact H1|]. split.
  - unfold subscriber_ids. change (length (nodes subscribed_state)) with 2%nat in H2.
    by rewrite H2.
  - destruct (H3 0%nat _ eq_refl) as (nd' & E' & Hs).
    unfold subscriber_ids. rewrite E'.
    destruct nd' as [c'|]; [|done]. destruct Hs as [Hs _]. simpl in Hs. by rewrite <- Hs.
Defined.

(** Consistency of registration *)

Lemma consistent_shape ns ns' :
  shape ns ns' -> registered_consistent ns -> registered_consistent ns'.
Proof.
  intros [Hl H] Hc r c' d Hr Hd.
  assert (Hlt : (r < length ns)%nat) by (rewrite Hl; by eapply lookup_lt_Some).
  destruct (lookup_lt_is_Some_2 _ _ Hlt) as [nd E].
  destruct (H r nd E) as (nd2 & E2 & Hn). rewrite Hr in E2. injection E2 as <-.
  destruct nd as [c|]; [|done]. destruct Hn as [_ Hder].
  rewrite <- Hder in Hd. destruct (Hc r c d E Hd) as (dd & Edd & Hdep).
  destruct (H d _ Edd) as (nd3 & E3 & Hn3). destruct nd3 as [|dd']; [done|].
  destruct Hn3 as (_ & _ & Hdep'). exists dd'. split; [done|congruence].
Qed.

Lemma consistent_app ns nd :
  (forall c, nd = Cell c -> c_derivedStates c = []) ->
  registered_consistent ns -> registered_consistent (ns ++ [nd]).
Proof.
  intros Hnd Hc r c d Hr Hd.
  destruct (decide (r < length ns)%nat) as [Hlt|Hge].
  - rewrite lookup_app_l in Hr by done.
    destruct (Hc r c d Hr Hd) as (dd & Edd & Hdep).
    exists dd. split; [by apply lookup_app_l_Some|done].
  - assert (r = length ns).
    { apply lookup_lt_Some in Hr. rewrite length_app in Hr. simpl in Hr. lia. }
    subst r. rewrite lookup_alloc in Hr. injection Hr as ->.
    rewrite (Hnd c eq_refl) in Hd. by apply elem_of_nil in Hd.
Qed.

(** X16. [derivedStates] only holds children.  If every member of every
    cell's [derivedStates] is a derived state whose dependency is that
    cell, this is still so after [createReactiveState], after a [derive]
    that returns, and after any [setValue] or [value] that finishes. *)
Theorem registration_consistent
    (n : nat) (r : ref) (fn : val -> body) (a : setArg) (s : state) :
  registered_consistent (nodes s) ->
  (forall x, registered_consistent (nodes (snd (createReactiveState x s)))) /\
  (forall d s', derive n r fn s = Ok d s' -> registered_consistent (nodes s')) /\
  after (fun s' => registered_consistent (nodes s')) (setValue n r a s) /\
  after (fun s' => registered_consistent (nodes s')) (value n r s).
Proof.
  intros Hc. repeat split.
  - intros x. simpl. apply consistent_app; [|done]. by intros c [= <-].
  - intros d s' H. unfold derive in H.
    assert (Hcreate : forall d0 s0, createDerivedState n fn r s = Ok d0 s0 ->
              d0 = length (nodes s) /\ registered_consistent (nodes s0) /\
              (exists dd, nodes s0 !! d0 = Some (Derived dd) /\ d_dependency dd = r) /\
              shape (nodes s ++ [Derived (mkDerived VUndefined true [] fn r)]) (nodes s0)).
    { intros d0 s0 H0. unfold createDerivedState, alloc in H0.
      set (s1 := set_nodes _ s) in H0.
      destruct (compute n (length (nodes s)) s1) as [v s2|e s2|] eqn:Ec;
        cbn [bind] in H0; try done.
      injection H0 as <- <-.
      pose proof (proj1 (proj2 (proj2 (structure_kept n))) (length (nodes s)) s1) as Hk.
      rewrite Ec in Hk. destruct Hk as [Hshape _].
      split; [done|]. split.
      - apply (consistent_shape _ _ Hshape). simpl. by apply consistent_app.
      - split; [|exact Hshape].
        destruct Hshape as [_ Hs]. destruct (Hs (length (nodes s)) _ (lookup_alloc _ _))
          as (nd' & E' & Hn'). destruct nd' as [|dd]; [done|].
        destruct Hn' as (_ & _ & Hdep). exists dd. split; [done|]. by rewrite <- Hdep. }
    destruct (nodes s !! r) as [[c|dr]|] eqn:Er; [| |done].
    + destruct (createDerivedState n fn r s) as [d0 s0|e s0|] eqn:Ecr;
        cbn [bind] in H; try done.
      injection H as <- <-.
      destruct (Hcreate _ _ eq_refl) as (-> & Hc0 & (dd & Edd & Hdep) & Hshape).
      destruct Hshape as [Hlen Hs].
      destruct (Hs r _ (lookup_app_l_Some _ _ _ _ Er)) as (nd' & Er0 & Hn').
      destruct nd' as [c0|]; [|done]. destruct Hn' as [Hsub Hder].
      simpl in Hsub, Hder.
      assert (Hne : r <> length (nodes s)) by (apply lookup_lt_Some in Er; lia).
      assert (Hlt0 : (r < length (nodes s0))%nat) by by eapply lookup_lt_Some.
      unfold add_derivedState. simpl. rewrite Er0.
      intros r' c' d' Hr' Hd'.
      destruct (decide (r' = r)) as [->|Hne'].
      * rewrite list_lookup_insert_eq in Hr' by done. injection Hr' as <-.
        simpl in Hd'. apply elem_of_app in Hd'. destruct Hd' as [Hd'|Hd'].
        -- destruct (Hc0 r c0 d' Er0 Hd') as (dd' & Edd' & Hdep').
           exists dd'. split; [|done].
           rewrite list_lookup_insert_ne; [done|congruence].
        -- apply list_elem_of_singleton in Hd'. subst d'.
           exists dd. split; [|done]. by rewrite list_lookup_insert_ne.
      * rewrite list_lookup_insert_ne in Hr' by done.
        destruct (Hc0 r' c' d' Hr' Hd') as (dd' & Edd' & Hdep').
        exists dd'. split; [|done].
        rewrite list_lookup_insert_ne; [done|congruence].
    + by destruct (Hcreate _ _ H) as (_ & Hc0 & _).
  - pose proof (proj2 (proj2 (proj2 (proj2 (structure_kept n)))) r a s) as Hk.
    destruct (setValue n r a s); simpl in *; try done;
      destruct Hk as [Hs _]; by eapply consistent_shape.
  - pose proof (proj1 (proj2 (structure_kept n)) r s) as Hk.
    destruct (value n r s); simpl in *; try done;
      destruct Hk as [Hs _]; by eapply consistent_shape.
Qed.

Lemma registration_consistent_witness :
  registered_consistent (nodes siblings_state) /\
  after (fun s' => registered_consistent (nodes s'))
        (setValue 10 0 (Plain (VNum 2)) siblings_state).
Proof.
  assert (H : registered_consistent (nodes siblings_state)).
  { intros r c d Hr Hd. destruct r as [|[|[|r]]]; try done.
    injection Hr as <-. simpl in Hd.
    apply elem_of_cons in Hd. destruct Hd as [->|Hd].
    - by eexists.
    - apply list_elem_of_singleton in Hd. subst d. by eexists. }
  split; [exact H|].
  exact (proj1 (proj2 (proj2
    (registration_consistent 10 0 rejecting (Plain (VNum 2)) siblings_state H)))).
Defined.

(** ** The memoized selector *)

(** X17. With the default [equalityFn] the memoized selector memoizes
    nothing.  Whatever [lastValue] holds, the function that
    [createMemoizedSelector] passes to [derive] returns [selector(value)]
    and stores it; over any sequence of calls its results are those of
    the bare selector, as with [createSelector]. *)
Theorem memoized_default_is_selector
    (selector : val -> val) (lastValue : val) (xs : list val) :
  (forall x, memoized selector strict_eq lastValue x = (selector x, selector x)) /\
  memoized_calls selector strict_eq lastValue xs = map selector xs.
Proof.
  assert (H : forall l x, memoized selector strict_eq l x = (selector x, selector x)).
  { intros l x. unfold memoized, strict_eq.
    destruct (bool_decide (l = VUndefined)); [done|]. simpl.
    destruct (bool_decide_reflect (l = selector x)) as [->|]; done. }
  split; [apply H|].
  revert lastValue. induction xs as [|x xs IH]; intros l; [done|].
  cbn [memoized_calls map]. rewrite H. by rewrite IH.
Qed.

(** * State machines *)

Module StateMachineFacts.
Import StateMachine.

Lemma send_found {C} (m m' : machine C) e :
  send m e = inr m' ->
  exists t, List.find (matches m e) (transitions m) = Some t /\
            guard_passes m t = true.
Proof.
  unfold send. destruct (List.find _ _) as [t|] eqn:E; [|done].
  destruct (guard_passes m t) eqn:G; simpl; [|done].
  intros _. by exists t.
Qed.

(** X18. [send] succeeds only where [can] says so.  If [send(event)]
    returns, then [can(event)] was true before it: [send] is never more
    permissive than [can]. *)
Theorem send_implies_can {C} (m m' : machine C) (e : string) :
  send m e = inr m' -> can m e = true.
Proof.
  intros H. destruct (send_found _ _ _ H) as (t & Hf & Hg).
  apply List.find_some in Hf. destruct Hf as [Hin Hm].
  unfold can. apply List.existsb_exists. exists t. split; [done|].
  by rewrite Hm, Hg.
Qed.

Lemma send_implies_can_witness :
  exists m, send turnstile "coin" = inr m /\ can turnstile "coin" = true.
Proof.
  destruct (send turnstile "coin") as [err|m] eqn:E; [by vm_compute in E|].
  exists m. split; [reflexivity|]. exact (send_implies_can turnstile m "coin" E).
Defined.

Lemma tell_quiet {C} (sbs : list (subscriber C)) :
  Forall (fun sb => forall st c, sub_call sb st c = None) sbs ->
  forall m, exists m', tell sbs m = inr m'.
Proof.
  induction 1 as [|sb sbs Hsb _ IH]; intros m; simpl.
  - by exists m.
  - rewrite Hsb. apply IH.
Qed.

(** X19. [can] and [send] agree on deterministic, quiet machines.  If
    no two transitions leave the same state on the same event, and no
    action, [onStateChange] or subscriber of the machine throws, then
    whenever [can(event)] is true, [send(event)] returns. *)
Theorem can_implies_send {C} (m : machine C) (e : string) :
  deterministic (transitions m) ->
  quiet m ->
  can m e = true ->
  exists m', send m e = inr m'.
Proof.
  intros Hdet (Hact & Hchange & Hsubs) Hcan. unfold can in Hcan.
  apply List.existsb_exists in Hcan. destruct Hcan as (t & Hin & Ht).
  apply andb_true_iff in Ht. destruct Ht as [Hm Hg].
  unfold send. destruct (List.find _ _) as [t'|] eqn:E.
  - apply List.find_some in E. destruct E as [Hin' Hm'].
    assert (t' = t).
    { unfold matches in Hm, Hm'.
      apply andb_true_iff in Hm, Hm'. destruct Hm as [Hf He], Hm' as [Hf' He'].
      apply String.eqb_eq in Hf, He, Hf', He'.
      apply Hdet; congruence. }
    subst t'. rewrite Hg. cbn [negb].
    destruct (t_action t) as [act|] eqn:Ea.
    + pose proof (Hact t act (context (set_currentState (t_to t) m)) Hin Ea) as Hq.
      destruct (act (context (set_currentState (t_to t) m))) as [ctx thrown].
      simpl in Hq. subst thrown. simpl.
      destruct (onStateChange m) as [f|] eqn:Ef.
      * rewrite (Hchange f _ _ _ eq_refl). by apply tell_quiet.
      * by apply tell_quiet.
    + simpl. destruct (onStateChange m) as [f|] eqn:Ef.
      * rewrite (Hchange f _ _ _ eq_refl). by apply tell_quiet.
      * by apply tell_quiet.
  - pose proof (List.find_none _ _ E t Hin) as Hn. congruence.
Qed.

Lemma can_implies_send_witness :
  exists m1 m2,
    send turnstile "coin" = inr m1 /\ can m1 "push" = true /\ send m1 "push" = inr m2.
Proof.
  destruct (send turnstile "coin") as [err|m1] eqn:E; [by vm_compute in E|].
  assert (Em : m1 = mkMachine "locked" (transitions turnstile) (onStateChange turnstile)
                              "unlocked" 1%nat []
                              [Changed "locked" "unlocked" 1%nat]).
  { vm_compute in E. injection E as <-. reflexivity. }
  assert (Hcan : can m1 "push" = true) by (by rewrite Em).
  assert (Hdet : deterministic (transitions m1)).
  { rewrite Em. intros t1 t2 H1 H2 Hf He. simpl in H1, H2.
    destruct H1 as [<-|[<-|[]]], H2 as [<-|[<-|[]]]; simpl in *; congruence. }
  assert (Hq : quiet m1).
  { rewrite Em. split; [|split].
    - intros t act c Hin Ha. simpl in Hin.
      destruct Hin as [<-|[<-|[]]]; simpl in Ha; injection Ha as <-; reflexivity.
    - intros f from to c Hf. simpl in Hf. injection Hf as <-. reflexivity.
    - constructor. }
  destruct (can_implies_send m1 "push" Hdet Hq Hcan) as [m2 H2].
  exists m1, m2. split; [reflexivity|]. split; [exact Hcan|exact H2].
Defined.

(** Without quietness the implication fails: the jammed turnstile is
    deterministic and [can("coin")] is true, but [send("coin")] throws
    what the action throws, and leaves the machine unlocked. *)
Lemma jammed_send_throws :
  deterministic (transitions jammed) /\
  can jammed "coin" = true /\
  send jammed "coin" = inl (boom, set_currentState "unlocked" jammed).
Proof.
  split; [|split; reflexivity].
  intros t1 t2 H1 H2 _ _. simpl in H1, H2.
  by destruct H1 as [<-|[]], H2 as [<-|[]].
Qed.

Lemma toggle_step b on : send (toggled b on) "toggle" = inr (toggled b (negb on)).
Proof. by destruct b, on. Qed.

Lemma toggle_steps b k :
  forall on, sends (toggled b on) (replicate k "toggle") =
             inr (toggled b (xorb on (Nat.odd k))).
Proof.
  induction k as [|k IH]; intros on.
  - simpl. by destruct on.
  - cbn [replicate sends]. rewrite toggle_step, IH. f_equal. f_equal.
    rewrite Nat.odd_succ, <- Nat.negb_odd. by destruct on, (Nat.odd k).
Qed.

(** X20. The toggle machine.  From [createToggleMachine(initial)], any
    number [k] of [toggle] events is accepted; the machine is then [on]
    exactly when [initial] and the parity of [k] disagree, its context
    is still the initial boolean (not the current position), and
    [toggle] can be sent again. *)
Theorem toggle_machine_flips (b : bool) (k : nat) :
  exists m',
    sends (createToggleMachine b) (replicate k "toggle") = inr m' /\
    currentState m' = (if xorb b (Nat.odd k) then "on" else "off") /\
    context m' = b /\
    can m' "toggle" = true.
Proof.
  exists (toggled b (xorb b (Nat.odd k))).
  change (createToggleMachine b) with (toggled b b).
  split; [apply toggle_steps|]. by destruct (xorb b (Nat.odd k)).
Qed.

Lemma send_unknown {C} (m : machine C) e :
  (forall t, In t (transitions m) -> t_event t <> e) ->
  send m e = inl (cannotSend e (currentState m), m).
Proof.
  intros H. unfold send. destruct (List.find _ _) as [t|] eqn:E; [|done].
  apply List.find_some in E. destruct E as [Hin Hm].
  unfold matches in Hm. apply andb_true_iff in Hm. destruct Hm as [_ He].
  apply String.eqb_eq in He. by destruct (H t Hin).
Qed.

Lemma loading_step st e m' :
  In st loading_states ->
  send (loading st) e = inr m' ->
  exists st', m' = loading st' /\ In st' loading_states.
Proof.
  intros Hst H.
  destruct (decide (e = "start")) as [->|H1];
    [|destruct (decide (e = "complete")) as [->|H2];
      [|destruct (decide (e = "error")) as [->|H3]]].
  - simpl in Hst. destruct Hst as [<-|[<-|[<-|[<-|[]]]]]; vm_compute in H;
      try done; injection H as <-; eexists; (split; [reflexivity|]);
      simpl; tauto.
  - simpl in Hst. destruct Hst as [<-|[<-|[<-|[<-|[]]]]]; vm_compute in H;
      try done; injection H as <-; eexists; (split; [reflexivity|]);
      simpl; tauto.
  - simpl in Hst. destruct Hst as [<-|[<-|[<-|[<-|[]]]]]; vm_compute in H;
      try done; injection H as <-; eexists; (split; [reflexivity|]);
      simpl; tauto.
  - rewrite send_unknown in H; [done|].
    intros t Hin. simpl in Hin.
    destruct Hin as [<-|[<-|[<-|[<-|[<-|[]]]]]]; simpl; congruence.
Qed.

(** X21. The loading machine.  After any sequence of events that
    [createLoadingMachine()] accepts, the state is one of [idle],
    [loading], [success], [error]; [start] can be sent exactly when the
    state is not [loading], and [complete] and [error] exactly when it
    is; no observer was called. *)
Theorem loading_machine_states (events : list string) (m' : machine unit) :
  sends createLoadingMachine events = inr m' ->
  In (currentState m') loading_states /\
  can m' "start" = negb (String.eqb (currentState m') "loading") /\
  can m' "complete" = String.eqb (currentState m') "loading" /\
  can m' "error" = String.eqb (currentState m') "loading" /\
  notices m' = [].
Proof.
  change createLoadingMachine with (loading "idle").
  assert (Hgen : forall es st, In st loading_states ->
            sends (loading st) es = inr m' ->
            exists st', m' = loading st' /\ In st' loading_states).
  { induction es as [|e es IH]; intros st Hst H.
    - injection H as <-. by exists st.
    - simpl in H. destruct (send (loading st) e) as [err|m1] eqn:E; [done|].
      destruct (loading_step _ _ _ Hst E) as (st1 & -> & Hst1). by apply (IH st1). }
  intros H. destruct (Hgen events "idle") as (st' & -> & Hst'); [simpl; tauto|done|].
  simpl in Hst'. destruct Hst' as [<-|[<-|[<-|[<-|[]]]]]; vm_compute; tauto.
Qed.

Lemma loading_machine_states_witness :
  exists m,
    sends createLoadingMachine ["start"; "complete"; "start"] = inr m /\
    In (currentState m) loading_states /\
    can m "start" = negb (String.eqb (currentState m) "loading").
Proof.
  destruct (sends createLoadingMachine ["start"; "complete"; "start"])
    as [err|m] eqn:E; [by vm_compute in E|].
  exists m. split; [reflexivity|].
  destruct (loading_machine_states _ m E) as (H1 & H2 & _).
  split; [exact H1|exact H2].
Defined.

(** X22. The first transition shadows the others.  [send] looks only at
    the first transition for the current state and the event, while
    [can] looks at all of them: if the guard of the first one fails and
    a later one for the same state and event passes, [can(event)] is
    true and [send(event)] throws "Guard failed", leaving the machine
    as it was. *)
Theorem first_transition_shadows {C} (m : machine C) (e : string)
    (ts1 ts2 : list (transition C)) (t1 t2 : transition C) :
  transitions m = ts1 ++ t1 :: ts2 ->
  Forall (fun t => matches m e t = false) ts1 ->
  matches m e t1 = true ->
  guard_passes m t1 = false ->
  In t2 ts2 ->
  matches m e t2 = true ->
  guard_passes m t2 = true ->
  can m e = true /\ send m e = inl (guardFailed e (currentState m), m).
Proof.
  intros Hts Hts1 Hm1 Hg1 Hin Hm2 Hg2. split.
  - unfold can. apply List.existsb_exists. exists t2. split.
    + rewrite Hts. apply List.in_or_app. right. by right.
    + by rewrite Hm2, Hg2.
  - unfold send. rewrite Hts.
    assert (Hf : List.find (matches m e) (ts1 ++ t1 :: ts2) = Some t1).
    { clear Hts. induction Hts1 as [|t ts Ht _ IH]; simpl.
      - by rewrite Hm1.
      - by rewrite Ht. }
    by rewrite Hf, Hg1.
Qed.

Lemma first_transition_shadows_witness :
  can ambiguous "go" = true /\
  send ambiguous "go" = inl (guardFailed "go" "a", ambiguous).
Proof.
  apply (first_transition_shadows ambiguous "go" []
           [plain "a" "c" "go"]
           (mkTransition "a" "b" "go" (Some (fun _ => false)) None)
           (plain "a" "c" "go")).
  - reflexivity.
  - constructor.
  - reflexivity.
  - reflexivity.
  - simpl. tauto.
  - reflexivity.
  - reflexivity.
Defined.


End StateMachineFacts.
